(** * Codebase visualizer: the static-analysis core, embedded and verified

    The development follows the TypeScript sources of the extension:
    - [GraphBuilder]         graph/graphBuilder.ts
    - [EntryPointDetector]   analyzers/entryPointDetector.ts
    - [ImportAnalyzer]       analyzers/importAnalyzer.ts
    - [JavaParser], [PythonParser], [ReactParser]   parsers/*.ts

    Part I holds the embedding (one module per source class), Part II the
    properties.  Strings are the sources' strings, arrays are lists, a JS
    [Set<string>] is a [gset string], and a [Map] whose iteration order is
    observed is an insertion-ordered association list. *)

From Stdlib Require Import ZArith Ascii String.
From stdpp Require Import base strings list gmap sorting pretty.

Set Warnings "-clear-no-such-hyp,-register-all".

(* ===================================================================== *)
(** * Part I.  The program                                                *)
(* ===================================================================== *)

(** ** types/types.ts : the shared data model *)

(** The parsers and the graph builder import their types from
    [types/types.ts], whose text is not available; the declarations below
    follow section 3 of the specification and the fields that the sources
    write and read. *)

Module Types.

(** Modelled from the spec: the kinds of an entity node
    (class, function, method, component, module, interface). *)
Inductive NodeKind := KClass | KFunction | KMethod | KComponent | KModule | KInterface.

(** Modelled from the spec: the source languages of a node. *)
Inductive Language := Java | TypeScript | JavaScript | Python.

(** Modelled from the spec: the kinds of a relationship edge. *)
Inductive EdgeType := imports | extends | implements | contains | calls | uses.

(** Modelled from the spec: the visibility modifier of a node. *)
Inductive Visibility := Public | Private | Protected.

#[global] Instance Visibility_eq_dec : EqDecision Visibility.
Proof. solve_decision. Defined.
#[global] Instance NodeKind_eq_dec : EqDecision NodeKind.
Proof. solve_decision. Defined.
#[global] Instance Language_eq_dec : EqDecision Language.
Proof. solve_decision. Defined.
#[global] Instance EdgeType_eq_dec : EqDecision EdgeType.
Proof. solve_decision. Defined.

(** What a template literal prints for an edge kind. *)
Definition edgeTypeName (t : EdgeType) : string :=
  match t with
  | imports => "imports" | extends => "extends" | implements => "implements"
  | contains => "contains" | calls => "calls" | uses => "uses"
  end.

(** Modelled from the spec: the entity node [CodeNode], with the fields
    the parsers fill in.  The documentation texts, the parameter list and
    the verbatim source snippet are left out: no operation below reads
    them. *)
Record CodeNode := mkNode {
  id : string;
  label : string;
  kind : NodeKind;            (* the [type] field of a node *)
  language : Language;
  filePath : string;
  startLine : nat;
  endLine : nat;
  visibility : option Visibility;
  isStatic : bool;            (* the optional flags read as false when absent *)
  isAsync : bool;
  props : list string;
  isEntryPoint : bool
}.

(** Modelled from the spec: the relationship edge [CodeEdge]. *)
Record CodeEdge := mkEdge {
  from : string;
  to : string;
  type : EdgeType;
  elabel : string             (* the [label] field of an edge *)
}.

(** Modelled from the spec: the metadata of a graph. *)
Record GraphMetadata := mkMeta {
  totalFiles : nat;
  totalNodes : nat;
  languages : list Language;
  rootPath : string;
  analyzedAt : Z;             (* the clock reading of [new Date()] *)
  entryPoints : option (list string)
}.

(** Modelled from the spec: the graph [CodeGraph]. *)
Record CodeGraph := mkGraph {
  nodes : list CodeNode;
  edges : list CodeEdge;
  metadata : GraphMetadata
}.

#[global] Instance CodeNode_eq_dec : EqDecision CodeNode.
Proof. solve_decision. Defined.
#[global] Instance CodeEdge_eq_dec : EqDecision CodeEdge.
Proof. solve_decision. Defined.

End Types.
Export Types.

(** ** graph/graphBuilder.ts *)

Module GraphBuilder.

(** [new Map<string, CodeNode>()]: [has], [set] on a fresh key (the only
    use below) and [values()], which lists in insertion order. *)
Definition NodeMap := list (string * CodeNode).

Definition map_has (k : string) (m : NodeMap) : bool :=
  existsb (fun kv => bool_decide (kv.1 = k)) m.

Definition map_set (k : string) (v : CodeNode) (m : NodeMap) : NodeMap :=
  m ++ [(k, v)].

Definition map_values (m : NodeMap) : list CodeNode := snd <$> m.

Definition deduplicateNodes (ns : list CodeNode) : list CodeNode :=
  map_values
    (fold_left (fun seen node =>
                  if map_has (id node) seen then seen
                  else map_set (id node) node seen)
               ns []).

(** The key of the edge filter: [`${edge.from}-${edge.to}-${edge.type}`]. *)
Definition edgeKey (e : CodeEdge) : string :=
  from e +:+ "-" +:+ to e +:+ "-" +:+ edgeTypeName (type e).

(** [edges.filter(...)] with the closed-over [seen] set threaded along. *)
Fixpoint dedupEdgesFrom (seen : gset string) (es : list CodeEdge) : list CodeEdge :=
  match es with
  | [] => []
  | e :: rest =>
      if bool_decide (edgeKey e ∈ seen) then dedupEdgesFrom seen rest
      else e :: dedupEdgesFrom ({[edgeKey e]} ∪ seen) rest
  end.

Definition deduplicateEdges (es : list CodeEdge) : list CodeEdge :=
  dedupEdgesFrom ∅ es.

(** [[...new Set(xs)]]: distinct values in order of first appearance. *)
Fixpoint distinct {A} `{EqDecision A} (xs : list A) : list A :=
  match xs with
  | [] => []
  | x :: rest => x :: filter (fun y => y ≠ x) (distinct rest)
  end.

Definition buildFromEntryPoints (ns : list CodeNode) (es : list CodeEdge)
    (root : string) (entryPointFiles : list string) (now : Z) : CodeGraph :=
  let uniqueNodes := deduplicateNodes ns in
  let uniqueEdges := deduplicateEdges es in
  {| nodes := uniqueNodes;
     edges := uniqueEdges;
     metadata :=
       {| totalFiles := length (distinct (filePath <$> uniqueNodes));
          totalNodes := length uniqueNodes;
          languages := distinct (language <$> uniqueNodes);
          rootPath := root;
          analyzedAt := now;
          entryPoints := Some entryPointFiles |} |}.

(** The three accumulators of [filterByDepth]. *)
Record Walk := mkWalk {
  visited : gset string;
  nodesToInclude : gset string;
  edgesToInclude : list CodeEdge
}.

Definition enter (nodeId : string) (w : Walk) : Walk :=
  {| visited := {[nodeId]} ∪ visited w;
     nodesToInclude := {[nodeId]} ∪ nodesToInclude w;
     edgesToInclude := edgesToInclude w |}.

Definition pushEdge (e : CodeEdge) (w : Walk) : Walk :=
  {| visited := visited w;
     nodesToInclude := nodesToInclude w;
     edgesToInclude := edgesToInclude w ++ [e] |}.

Definition outgoing (g : CodeGraph) (nodeId : string) : list CodeEdge :=
  filter (fun e => from e = nodeId) (edges g).

(** The inner closure [traverse].  Each call either returns at once or
    recurses at [depth + 1], and returns at once when [depth > maxDepth]:
    [fuel] bounds the nesting and is never exhausted before the depth
    test fires when it starts at [S maxDepth - depth] (lemma
    [traverse_fuel] in Part II). *)
Fixpoint traverse (fuel : nat) (g : CodeGraph) (maxDepth : nat)
    (nodeId : string) (depth : nat) (w : Walk) : Walk :=
  match fuel with
  | O => w
  | S fuel' =>
      if (maxDepth <? depth)%nat || bool_decide (nodeId ∈ visited w) then w
      else
        fold_left
          (fun w' edge => traverse fuel' g maxDepth (to edge) (S depth) (pushEdge edge w'))
          (outgoing g nodeId)
          (enter nodeId w)
  end.

Definition emptyWalk : Walk :=
  {| visited := ∅; nodesToInclude := ∅; edgesToInclude := [] |}.

Definition walkFrom (g : CodeGraph) (rootNodeId : string) (maxDepth : nat) : Walk :=
  traverse (S maxDepth) g maxDepth rootNodeId 0 emptyWalk.

Definition withTotalNodes (m : GraphMetadata) (n : nat) : GraphMetadata :=
  {| totalFiles := totalFiles m; totalNodes := n; languages := languages m;
     rootPath := rootPath m; analyzedAt := analyzedAt m;
     entryPoints := entryPoints m |}.

Definition filterByDepth (g : CodeGraph) (rootNodeId : string) (maxDepth : nat) : CodeGraph :=
  let w := walkFrom g rootNodeId maxDepth in
  {| nodes := filter (fun n => id n ∈ nodesToInclude w) (nodes g);
     edges := edgesToInclude w;
     metadata := withTotalNodes (metadata g) (size (nodesToInclude w)) |}.

(** [getDependencies] and [getDependents], in the variant whose edges
    carry file paths. *)
Definition findNode (g : CodeGraph) (nodeId : string) : option CodeNode :=
  snd <$> list_find (fun n => id n = nodeId) (nodes g).

Definition getDependencies (g : CodeGraph) (nodeId : string) : list CodeNode :=
  match findNode g nodeId with
  | None => []
  | Some node =>
      let targetFilePaths :=
        to <$> filter (fun e => from e = filePath node) (edges g) in
      filter (fun n => filePath n ∈ targetFilePaths) (nodes g)
  end.

Definition getDependents (g : CodeGraph) (nodeId : string) : list CodeNode :=
  match findNode g nodeId with
  | None => []
  | Some node =>
      let sourceFilePaths :=
        from <$> filter (fun e => to e = filePath node) (edges g) in
      filter (fun n => filePath n ∈ sourceFilePaths) (nodes g)
  end.

(** The unfolding of the graph from a node, with no visited set: the ids
    met, and the edges met, along every edge path of fewer than [rem]
    steps.  It is what [traverse] walks when no id is met twice. *)
Fixpoint unfoldIds (g : CodeGraph) (rem : nat) (nodeId : string) : list string :=
  match rem with
  | O => []
  | S rem' => nodeId :: flat_map (fun e => unfoldIds g rem' (to e)) (outgoing g nodeId)
  end.

Fixpoint unfoldEdges (g : CodeGraph) (rem : nat) (nodeId : string) : list CodeEdge :=
  match rem with
  | O => []
  | S rem' => flat_map (fun e => e :: unfoldEdges g rem' (to e)) (outgoing g nodeId)
  end.

(** First-wins selection by a key: what both deduplications compute (lemmas
    [deduplicateNodes_keepFirst] and [deduplicateEdges_keepFirst]). *)
Fixpoint keepFirst {A} (key : A → string) (seen : gset string) (l : list A) : list A :=
  match l with
  | [] => []
  | x :: rest =>
      if bool_decide (key x ∈ seen) then keepFirst key seen rest
      else x :: keepFirst key ({[key x]} ∪ seen) rest
  end.

(** A walk with the ids [ids] and the edges [es] added to it. *)
Definition extend (w : Walk) (ids : list string) (es : list CodeEdge) : Walk :=
  {| visited := visited w ∪ list_to_set ids;
     nodesToInclude := nodesToInclude w ∪ list_to_set ids;
     edgesToInclude := edgesToInclude w ++ es |}.

End GraphBuilder.

(** ** String operations of the JavaScript runtime used by the sources *)

Module Str.

(** Paths are sequences of character codes; only the letters A-Z have a
    lower-case partner, which is how the patterns below (all ASCII)
    see them. *)
Definition toLowerChar (c : ascii) : ascii :=
  let n := nat_of_ascii c in
  if (65 <=? n)%nat && (n <=? 90)%nat then ascii_of_nat (n + 32) else c.

Fixpoint toLowerCase (s : string) : string :=
  match s with
  | EmptyString => EmptyString
  | String c r => String (toLowerChar c) (toLowerCase r)
  end.

(** [dropPrefix p s = Some r] when [s] is [p] followed by [r]. *)
Fixpoint dropPrefix (p s : string) : option string :=
  match p with
  | EmptyString => Some s
  | String a p' =>
      match s with
      | EmptyString => None
      | String b s' => if Ascii.eqb a b then dropPrefix p' s' else None
      end
  end.

Definition startsWith (s p : string) : bool :=
  match dropPrefix p s with Some _ => true | None => false end.

Fixpoint suffixes (s : string) : list string :=
  s :: match s with
       | EmptyString => []
       | String _ r => suffixes r
       end.

Definition endsWith (s suffix : string) : bool :=
  existsb (String.eqb suffix) (suffixes s).

Definition includes (s sub : string) : bool :=
  existsb (fun t => startsWith t sub) (suffixes s).

(** [s.split(sep)] for a one-character separator. *)
Fixpoint split (sep : ascii) (s : string) : list string :=
  match s with
  | EmptyString => [EmptyString]
  | String c r =>
      let parts := split sep r in
      if Ascii.eqb c sep then EmptyString :: parts
      else match parts with
           | p :: ps => String c p :: ps
           | [] => [String c EmptyString]
           end
  end.

Fixpoint lastChar (s : string) : option ascii :=
  match s with
  | EmptyString => None
  | String c EmptyString => Some c
  | String _ r => lastChar r
  end.

(** [path.basename] on a POSIX file path with no trailing separator. *)
Definition basename (p : string) : string :=
  List.last (split "/" p) EmptyString.

End Str.

(** ** The regular expressions of the sources

    Every pattern of [entryPointDetector.ts] is a sequence of literals,
    character classes and alternations of literals, anchored at the end of
    the input by [$] and not at its start. *)

Module Regex.

Inductive Atom :=
| Lit (s : string)
| OneOf (cs : list ascii)
| Alt (alts : list string).

(** The whole of [s] is matched by the atoms, in order. *)
Fixpoint matchAll (atoms : list Atom) (s : string) : bool :=
  match atoms with
  | [] => String.eqb s EmptyString
  | Lit l :: rest =>
      match Str.dropPrefix l s with
      | Some s' => matchAll rest s'
      | None => false
      end
  | OneOf cs :: rest =>
      match s with
      | String c s' => existsb (Ascii.eqb c) cs && matchAll rest s'
      | EmptyString => false
      end
  | Alt alts :: rest =>
      existsb (fun a => match Str.dropPrefix a s with
                        | Some s' => matchAll rest s'
                        | None => false
                        end) alts
  end.

(** [/atoms$/i.test(s)]: some suffix of [s] matches, letters compared
    without case (the atoms are written in lower case). *)
Definition test_i (atoms : list Atom) (s : string) : bool :=
  existsb (matchAll atoms) (Str.suffixes (Str.toLowerCase s)).

End Regex.

(** ** analyzers/entryPointDetector.ts *)

Module EntryPointDetector.
Import Regex.

Inductive EntryType := main | index | app | config.

Record EntryPoint := mkEntry {
  filePath : string;
  type : EntryType;
  score : Z;
  isPrimaryEntry : bool      (* optional in the source; absent is false *)
}.

#[global] Instance EntryType_eq_dec : EqDecision EntryType.
Proof. solve_decision. Defined.
#[global] Instance EntryPoint_eq_dec : EqDecision EntryPoint.
Proof. solve_decision. Defined.

(** The object literal [{ filePath, type, score }]. *)
Definition candidate (p : string) (t : EntryType) (sc : Z) : EntryPoint :=
  {| filePath := p; type := t; score := sc; isPrimaryEntry := false |}.

Definition sep : list ascii := ["\"%char; "/"%char].
Definition tsjs : list string := ["tsx"; "ts"; "jsx"; "js"].

Definition reactPrimaryPatterns : list (list Atom) :=
  [ [OneOf sep; Lit "src"; OneOf sep; Lit "index."; Alt tsjs];
    [OneOf sep; Lit "src"; OneOf sep; Lit "main."; Alt tsjs];
    [OneOf sep; Lit "index."; Alt tsjs];
    [OneOf sep; Lit "main."; Alt tsjs] ].

Definition pythonPrimaryPatterns : list (list Atom) :=
  [ [Lit "__main__.py"];
    [OneOf ["/"%char]; Lit "main.py"];
    [OneOf ["/"%char]; Lit "app.py"];
    [OneOf ["/"%char]; Lit "manage.py"];
    [OneOf ["/"%char]; Lit "run.py"];
    [OneOf ["/"%char]; Lit "wsgi.py"];
    [OneOf ["/"%char]; Lit "asgi.py"] ].

Definition matchesPattern (pattern : list Atom) (ep : EntryPoint) : bool :=
  test_i pattern (filePath ep).

Definition isJavaMain (ep : EntryPoint) : bool :=
  bool_decide (type ep = main) && Str.endsWith (filePath ep) ".java".

(** [match.isPrimaryEntry = true; match.score += 100]. *)
Definition boost (ep : EntryPoint) : EntryPoint :=
  {| filePath := filePath ep; type := type ep;
     score := score ep + 100; isPrimaryEntry := true |}.

(** [entryPoints[0].isPrimaryEntry = true]. *)
Definition markOnly (ep : EntryPoint) : EntryPoint :=
  {| filePath := filePath ep; type := type ep;
     score := score ep; isPrimaryEntry := true |}.

(** [entryPoints.find(p)] followed by the update of the object found;
    the candidates are distinct objects, so the update is the update of
    one position of the array. *)
Definition markFound (p : EntryPoint → bool) (eps : list EntryPoint)
    : option (list EntryPoint) :=
  match list_find (fun ep => p ep = true) eps with
  | Some (i, m) => Some (<[i := boost m]> eps)
  | None => None
  end.

(** A [for (const pattern of patterns)] loop that returns at the first
    pattern with a match. *)
Fixpoint tryPatterns (patterns : list (list Atom)) (eps : list EntryPoint)
    : option (list EntryPoint) :=
  match patterns with
  | [] => None
  | pattern :: rest =>
      match markFound (matchesPattern pattern) eps with
      | Some out => Some out
      | None => tryPatterns rest eps
      end
  end.

(** The array is updated in place; the function returns its new content. *)
Definition markPrimaryEntryPoint (eps : list EntryPoint) : list EntryPoint :=
  match tryPatterns reactPrimaryPatterns eps with
  | Some out => out
  | None =>
      match markFound isJavaMain eps with
      | Some out => out
      | None =>
          match tryPatterns pythonPrimaryPatterns eps with
          | Some out => out
          | None =>
              match eps with
              | [] => []
              | ep :: rest => markOnly ep :: rest
              end
          end
      end
  end.

Definition calculateEntryPointScore (fsPath : string) : Z :=
  let fileName := Str.toLowerCase (Str.basename fsPath) in
  let filePath := Str.toLowerCase fsPath in
  let add (b : bool) (n : Z) : Z := if b then n else 0%Z in
  let named (n : string) := String.eqb fileName n in
  (add (named "index.tsx" || named "index.ts") 10
   + add (named "app.tsx" || named "app.ts") 9
   + add (named "main.tsx" || named "main.ts") 8
   + add (Str.includes fileName "main.java") 10
   + add (Str.includes fileName "application.java") 9
   + add (named "__main__.py") 10
   + add (named "main.py") 9
   + add (named "app.py") 8
   + add (named "manage.py") 9
   + add (named "wsgi.py" || named "asgi.py") 7
   + add (named "run.py") 7
   + add (Str.includes filePath "src/index") 5
   + add (Str.includes filePath "src/app") 4
   + add (Str.includes filePath "src/main") 4
   + add (Str.includes filePath "public/") 3
   + add (Str.includes filePath "/pages/") 2
   + add (length (Str.split "/" fsPath) <=? 5)%nat 2)%Z.

Definition detectEntryPointType (fsPath : string) : EntryType :=
  let fileName := Str.toLowerCase (Str.basename fsPath) in
  if Str.includes fileName "main" then main
  else if Str.includes fileName "index" then index
  else if Str.includes fileName "app" then app
  else config.

(** [Array.prototype.sort] with a comparator: stable, the element [a]
    stays in front of [b] unless [cmp a b > 0]. *)
Fixpoint insertBy (cmp : EntryPoint → EntryPoint → Z) (x : EntryPoint)
    (l : list EntryPoint) : list EntryPoint :=
  match l with
  | [] => [x]
  | y :: l' => if (cmp x y <=? 0)%Z then x :: y :: l' else y :: insertBy cmp x l'
  end.

Definition sortBy (cmp : EntryPoint → EntryPoint → Z) (l : list EntryPoint)
    : list EntryPoint :=
  foldr (insertBy cmp) [] l.

Definition byScore (a b : EntryPoint) : Z := (score b - score a)%Z.

(** The order [byScore] sorts into: [a] may stand in front of [b]. *)
Definition scoreGe (a b : EntryPoint) : Prop := (score b ≤ score a)%Z.

Definition primaryFirst (a b : EntryPoint) : Z :=
  if isPrimaryEntry a && negb (isPrimaryEntry b) then (-1)%Z
  else if negb (isPrimaryEntry a) && isPrimaryEntry b then 1%Z
  else (score b - score a)%Z.

Fixpoint dedupFrom (seen : gset string) (eps : list EntryPoint) : list EntryPoint :=
  match eps with
  | [] => []
  | ep :: rest =>
      if bool_decide (filePath ep ∈ seen) then dedupFrom seen rest
      else ep :: dedupFrom ({[filePath ep]} ∪ seen) rest
  end.

Definition deduplicateEntryPoints (eps : list EntryPoint) : list EntryPoint :=
  dedupFrom ∅ eps.

(** The three workspace scans of [detectEntryPoints] are its inputs
    here: the files found by the name globs (in glob order), the Java
    files with a [main] method and the Python files with a
    [__main__] block. *)
Definition collect (byName javaMain pythonMain : list string) : list EntryPoint :=
  flat_map (fun f => let sc := calculateEntryPointScore f in
                     if (0 <? sc)%Z then [candidate f (detectEntryPointType f) sc] else [])
           byName
  ++ ((fun f => candidate f main 10) <$> javaMain)
  ++ ((fun f => candidate f main 8) <$> pythonMain).

(** The list handed to [markPrimaryEntryPoint]. *)
Definition rankedCandidates (byName javaMain pythonMain : list string) : list EntryPoint :=
  sortBy byScore (deduplicateEntryPoints (collect byName javaMain pythonMain)).

Definition detectEntryPoints (byName javaMain pythonMain : list string) : list EntryPoint :=
  take 10 (sortBy primaryFirst
             (markPrimaryEntryPoint (rankedCandidates byName javaMain pythonMain))).

(** *** The selection chain in the words of the specification

    [root] is the workspace folder.  A path is at root level when it is
    [root], one separator and a file name. *)
Definition rootLevel (root path : string) : bool :=
  match Str.dropPrefix root path with
  | Some (String c name) =>
      existsb (Ascii.eqb c) sep
      && forallb (fun d => negb (existsb (Ascii.eqb d) sep)) (list_ascii_of_string name)
  | _ => false
  end.

Definition pat (k : nat) : list Atom := nth k reactPrimaryPatterns [].

(** src/index.*, src/main.*, root-level index.*, root-level main.* *)
Definition tsjsEntry (root : string) : list (EntryPoint → bool) :=
  [ matchesPattern (pat 0);
    matchesPattern (pat 1);
    (fun ep => rootLevel root (filePath ep) && matchesPattern (pat 2) ep);
    (fun ep => rootLevel root (filePath ep) && matchesPattern (pat 3) ep) ].

Definition pythonEntry : list (EntryPoint → bool) :=
  matchesPattern <$> pythonPrimaryPatterns.

Definition noneMatch (p : EntryPoint → bool) (eps : list EntryPoint) : Prop :=
  ∀ x, x ∈ eps → p x = false.

Definition noneOf (ps : list (EntryPoint → bool)) (eps : list EntryPoint) : Prop :=
  ∀ p, p ∈ ps → noneMatch p eps.

(** The first candidate that satisfies [p] is replaced by [f] of it;
    every other candidate is untouched. *)
Inductive FirstMarked (p : EntryPoint → bool) (f : EntryPoint → EntryPoint)
    : list EntryPoint → list EntryPoint → Prop :=
| first_marked l1 m l2 :
    noneMatch p l1 → p m = true →
    FirstMarked p f (l1 ++ m :: l2) (l1 ++ f m :: l2).

(** The patterns are tried in order; the first with a match decides. *)
Definition ByPriority (ps : list (EntryPoint → bool))
    (eps out : list EntryPoint) : Prop :=
  ∃ k p, ps !! k = Some p
         ∧ (∀ j q, j < k → ps !! j = Some q → noneMatch q eps)
         ∧ FirstMarked p boost eps out.

Definition Fallback (eps out : list EntryPoint) : Prop :=
  match eps with
  | [] => out = []
  | ep :: rest => out = markOnly ep :: rest ∧ ∀ x, x ∈ eps → (score x ≤ score ep)%Z
  end.

Definition PrimaryChain (root : string) (eps out : list EntryPoint) : Prop :=
  ByPriority (tsjsEntry root) eps out
  ∨ (noneOf (tsjsEntry root) eps ∧ FirstMarked isJavaMain boost eps out)
  ∨ (noneOf (tsjsEntry root) eps ∧ noneMatch isJavaMain eps
     ∧ ByPriority pythonEntry eps out)
  ∨ (noneOf (tsjsEntry root) eps ∧ noneMatch isJavaMain eps
     ∧ noneOf pythonEntry eps ∧ Fallback eps out).

(** Every index.* or main.* TS/JS candidate sits directly in a [src]
    folder or at root level. *)
Definition NoNestedIndex (root : string) (eps : list EntryPoint) : Prop :=
  ∀ ep, ep ∈ eps →
    matchesPattern (pat 2) ep || matchesPattern (pat 3) ep = true →
    matchesPattern (pat 0) ep || matchesPattern (pat 1) ep
    || rootLevel root (filePath ep) = true.

End EntryPointDetector.

(** ** analyzers/importAnalyzer.ts : resolution of an import specifier *)

(** Node's [path] module and the workspace file system are the two things
    [resolveImportPath] calls out to. *)
Class PathModule := {
  dirname : string → string;
  resolve : string → string → string
}.

Module ImportAnalyzer.
Section Resolve.
Context `{PathModule}.

(** The files and folders that exist ([vscode.workspace.fs.stat] succeeds). *)
Variable fs : gset string.

Definition fileExists (filePath : string) : bool := bool_decide (filePath ∈ fs).

Definition extensions : list string :=
  [".ts"; ".tsx"; ".js"; ".jsx"; ".java";
   "/index.ts"; "/index.tsx"; "/index.js"; "/index.jsx"].

(** The [for (const ext of extensions)] loop with its early return. *)
Fixpoint tryExtensions (resolvedPath : string) (exts : list string) : option string :=
  match exts with
  | [] => None
  | ext :: rest =>
      let testPath := resolvedPath +:+ ext in
      if fileExists testPath then Some testPath
      else tryExtensions resolvedPath rest
  end.

Definition resolveImportPath (sourceFile importSource workspaceRoot : string)
    : option string :=
  if negb (Str.startsWith importSource ".") && negb (Str.startsWith importSource "/")
  then None
  else
    let sourceDir := dirname sourceFile in
    let resolvedPath := resolve sourceDir importSource in
    match tryExtensions resolvedPath extensions with
    | Some testPath => Some testPath
    | None => if fileExists resolvedPath then Some resolvedPath else None
    end.

End Resolve.
End ImportAnalyzer.

(** The POSIX flavour of the two [path] functions, on absolute paths: the
    instance used by the concrete checks. *)
Module PosixPath.

Definition join (segments : list string) : string :=
  "/" +:+ String.concat "/" segments.

(** Segments of a path with [.] and empty segments dropped and [..]
    applied; [acc] holds the segments kept so far, innermost first. *)
Fixpoint normalize (acc : list string) (segments : list string) : list string :=
  match segments with
  | [] => rev acc
  | seg :: rest =>
      if String.eqb seg EmptyString || String.eqb seg "." then normalize acc rest
      else if String.eqb seg ".." then normalize (tail acc) rest
      else normalize (seg :: acc) rest
  end.

Definition posix_dirname (p : string) : string :=
  join (removelast (normalize [] (Str.split "/" p))).

Definition posix_resolve (dir spec : string) : string :=
  if Str.startsWith spec "/" then join (normalize [] (Str.split "/" spec))
  else join (normalize [] (Str.split "/" dir ++ Str.split "/" spec)).

#[global] Instance posix : PathModule :=
  {| dirname := posix_dirname; resolve := posix_resolve |}.

End PosixPath.

(** ** Exceptions and the console

    What a parser body can do besides computing: throw, and write a line
    to the console. *)

Module Eff.

Record Error := mkError { message : string }.

Definition Console := list string.

Definition M (A : Type) : Type := Console → Console * (Error + A).

#[global] Instance M_ret : MRet M := fun A a c => (c, inr a).

#[global] Instance M_bind : MBind M := fun A B k m c =>
  match m c with
  | (c', inr a) => k a c'
  | (c', inl e) => (c', inl e)
  end.

Definition throw {A} (e : Error) : M A := fun c => (c, inl e).

(** A call into code that returns or throws. *)
Definition call {A} (r : Error + A) : M A := fun c => (c, r).

(** [try { body } catch (error) { handler(error) }] *)
Definition tryCatch {A} (body : M A) (handler : Error → M A) : M A := fun c =>
  match body c with
  | (c', inl e) => handler e c'
  | (c', inr a) => (c', inr a)
  end.

Definition console_error (line : string) : M unit := fun c => (c ++ [line], inr tt).

(** A [for ... of] loop whose body extends an accumulator. *)
Fixpoint forEach {A S} (body : S → A → M S) (l : list A) (s : S) : M S :=
  match l with
  | [] => mret s
  | a :: rest => s' ← body s a; forEach body rest s'
  end.

End Eff.

(** ** parsers: what the three parsers share *)

Module Parser.

Record ParseResult := mkResult {
  nodes : list CodeNode;
  edges : list CodeEdge
}.

Definition empty : ParseResult := {| nodes := []; edges := [] |}.

(** [fsPath.split(/[\\/]/).pop() || 'module'] *)
Definition lastSegment (fsPath : string) : string :=
  let name := List.last (flat_map (Str.split "\") (Str.split "/" fsPath)) EmptyString in
  if String.eqb name EmptyString then "module" else name.

(** [fileName.replace(/\.(e1|e2|...)$/, '')]: the first of the listed
    endings that closes the name is cut off. *)
Fixpoint stripExt (exts : list string) (fileName : string) : string :=
  match exts with
  | [] => fileName
  | ext :: rest =>
      if Str.endsWith fileName ext
      then String.substring 0 (String.length fileName - String.length ext) fileName
      else stripExt rest fileName
  end.

Definition lineCount (content : string) : nat :=
  length (Str.split "010" content).

Definition createModuleNode (lang : Language) (fsPath content name : string) : CodeNode :=
  {| id := fsPath +:+ ":module:" +:+ name;
     label := name;
     kind := KModule;
     language := lang;
     filePath := fsPath;
     startLine := 1;
     endLine := lineCount content;
     visibility := None; isStatic := false; isAsync := false;
     props := [];
     isEntryPoint := true |}.

End Parser.

(** ** parsers/javaParser.ts (the line-based variant) *)

Module JavaParser.
Import Eff Parser.

Record JavaClass := {
  name : string;
  startLine : nat;
  endLine : nat;
  visibility : Visibility;
  isAbstract : bool;
  isFinal : bool;
  isStatic : bool;
  extendsClass : option string;
  implementsInterfaces : list string;
  annotations : list string
}.

Record JavaMethod := {
  mname : string;
  mstartLine : nat;
  mendLine : nat;
  mvisibility : Visibility;
  misAbstract : bool;
  misStatic : bool;
  misSynchronized : bool;
  className : string
}.

Record JavaInterface := {
  iname : string;
  istartLine : nat;
  iendLine : nat;
  ivisibility : Visibility;
  extendsInterfaces : list string
}.

(** The regular-expression line scanners.  What [parse] builds from their
    results does not depend on how they recognise a declaration, so they
    are taken as given; each may return or throw. *)
Class Scanner := {
  parseClasses : list string → Error + list JavaClass;
  parseMethods : list string → nat → nat → string → Error + list JavaMethod;
  parseInterfaces : list string → Error + list JavaInterface;
  (** the [import [static] x;] lines: static flag and imported path *)
  scanImports : string → Error + list (bool * string)
}.

Definition createClassNode (cls : JavaClass) (fsPath : string) : CodeNode :=
  {| id := fsPath +:+ ":class:" +:+ name cls;
     label := name cls;
     kind := KClass;
     language := Java;
     filePath := fsPath;
     Types.startLine := startLine cls + 1;
     Types.endLine := endLine cls + 1;
     Types.visibility := Some (visibility cls);
     Types.isStatic := isStatic cls;
     isAsync := false;
     props := [];
     isEntryPoint := false |}.

Definition createInterfaceNode (iface : JavaInterface) (fsPath : string) : CodeNode :=
  {| id := fsPath +:+ ":interface:" +:+ iname iface;
     label := iname iface;
     kind := KInterface;
     language := Java;
     filePath := fsPath;
     Types.startLine := istartLine iface + 1;
     Types.endLine := iendLine iface + 1;
     Types.visibility := Some (ivisibility iface);
     Types.isStatic := false;
     isAsync := false;
     props := [];
     isEntryPoint := false |}.

Definition createMethodNode (method : JavaMethod) (fsPath : string) : CodeNode :=
  {| id := fsPath +:+ ":method:" +:+ className method +:+ "." +:+ mname method
           +:+ ":" +:+ pretty (mstartLine method);
     label := mname method;
     kind := KMethod;
     language := Java;
     filePath := fsPath;
     Types.startLine := mstartLine method + 1;
     Types.endLine := mendLine method + 1;
     Types.visibility := Some (mvisibility method);
     Types.isStatic := misStatic method;
     isAsync := misSynchronized method;
     props := [];
     isEntryPoint := false |}.

Definition containsEdge (fsPath : string) (cls : JavaClass) (method : JavaMethod) : CodeEdge :=
  {| from := fsPath; to := fsPath; type := contains;
     elabel := name cls +:+ " contains " +:+ mname method |}.

Definition extendsEdge (fsPath target : string) : CodeEdge :=
  {| from := fsPath; to := target; type := extends; elabel := "extends " +:+ target |}.

Definition implementsEdge (fsPath iface : string) : CodeEdge :=
  {| from := fsPath; to := iface; type := implements; elabel := "implements " +:+ iface |}.

Definition importEdge (fsPath : string) (imp : bool * string) : CodeEdge :=
  {| from := fsPath; to := imp.2; type := imports;
     elabel := if imp.1 then "static import" else "import" |}.

Section Parse.
Context `{Scanner}.

(** One turn of [for (const cls of classes)]. *)
Definition classStep (fsPath : string) (lines : list string)
    (acc : ParseResult) (cls : JavaClass) : M ParseResult :=
  methods ← call (parseMethods lines (startLine cls) (endLine cls) (name cls));
  mret {| nodes := nodes acc ++ createClassNode cls fsPath
                     :: ((fun m => createMethodNode m fsPath) <$> methods);
          edges := edges acc
                   ++ (containsEdge fsPath cls <$> methods)
                   ++ match extendsClass cls with
                      | Some sup => [extendsEdge fsPath sup]
                      | None => []
                      end
                   ++ (implementsEdge fsPath <$> implementsInterfaces cls) |}.

Definition interfaceStep (fsPath : string)
    (acc : ParseResult) (iface : JavaInterface) : M ParseResult :=
  mret {| nodes := nodes acc ++ [createInterfaceNode iface fsPath];
          edges := edges acc ++ (extendsEdge fsPath <$> extendsInterfaces iface) |}.

(** The body of the [try] block. *)
Definition parseBody (fsPath content : string) (isEntryPoint : bool) : M ParseResult :=
  let lines := Str.split "010" content in
  classes ← call (parseClasses lines);
  r1 ← forEach (classStep fsPath lines) classes Parser.empty;
  interfaces ← call (parseInterfaces lines);
  r2 ← forEach (interfaceStep fsPath) interfaces r1;
  let nodes2 :=
    if bool_decide (length (nodes r2) = 0) && isEntryPoint
    then nodes r2 ++ [createModuleNode Java fsPath content
                        (stripExt [".java"] (lastSegment fsPath))]
    else nodes r2 in
  found ← call (scanImports content);
  mret {| nodes := nodes2; edges := edges r2 ++ (importEdge fsPath <$> found) |}.

(** [document] is what [openTextDocument] gave: the text, or a failure. *)
Definition parse (document : Error + string) (fsPath : string) (isEntryPoint : bool)
    : M ParseResult :=
  content ← call document;
  tryCatch (parseBody fsPath content isEntryPoint)
    (fun error =>
       console_error ("Failed to parse Java file " +:+ fsPath +:+ ": " +:+ message error);;
       mret Parser.empty).

End Parse.
End JavaParser.

(** ** parsers/pythonParser.ts *)

Module PythonParser.
Import Eff Parser.

Record PythonMethod := {
  mname : string;
  mstartLine : nat;
  mendLine : nat;
  mdecorators : list string;
  misAsync : bool;
  misStatic : bool
}.

Record PythonClass := {
  name : string;
  startLine : nat;
  endLine : nat;
  decorators : list string;
  bases : list string;
  methods : list PythonMethod
}.

Record PythonFunction := {
  fname : string;
  fstartLine : nat;
  fendLine : nat;
  fisAsync : bool
}.

(** An import line: [import m], or [from m import a, b]. *)
Inductive ImportLine :=
| ImportModule (module : string)
| FromImport (module : string) (items : list string).

(** The regular-expression line scanners, taken as given (see
    [JavaParser.Scanner]). *)
Class Scanner := {
  parseClasses : list string → Error + list PythonClass;
  parseStandaloneFunctions : list string → list PythonClass → Error + list PythonFunction;
  scanImports : string → Error + list ImportLine
}.

Definition nameVisibility (n : string) : Visibility :=
  if Str.startsWith n "__" && negb (Str.endsWith n "__") then Private
  else if Str.startsWith n "_" then Protected
  else Public.

Definition createClassNode (cls : PythonClass) (fsPath : string) : CodeNode :=
  {| id := fsPath +:+ ":class:" +:+ name cls;
     label := name cls;
     kind := KClass;
     language := Python;
     filePath := fsPath;
     Types.startLine := startLine cls + 1;
     Types.endLine := endLine cls + 1;
     visibility := Some (if Str.startsWith (name cls) "_" then Private else Public);
     isStatic := false;
     isAsync := false;
     props := [];
     isEntryPoint := false |}.

Definition createMethodNode (method : PythonMethod) (className fsPath : string) : CodeNode :=
  {| id := fsPath +:+ ":method:" +:+ className +:+ "." +:+ mname method
           +:+ ":" +:+ pretty (mstartLine method);
     label := mname method;
     kind := KMethod;
     language := Python;
     filePath := fsPath;
     Types.startLine := mstartLine method + 1;
     Types.endLine := mendLine method + 1;
     visibility := Some (nameVisibility (mname method));
     isStatic := misStatic method;
     isAsync := misAsync method;
     props := [];
     isEntryPoint := false |}.

Definition createFunctionNode (func : PythonFunction) (fsPath : string) : CodeNode :=
  {| id := fsPath +:+ ":function:" +:+ fname func +:+ ":" +:+ pretty (fstartLine func);
     label := fname func;
     kind := KFunction;
     language := Python;
     filePath := fsPath;
     Types.startLine := fstartLine func + 1;
     Types.endLine := fendLine func + 1;
     visibility := Some (nameVisibility (fname func));
     isStatic := false;
     isAsync := fisAsync func;
     props := [];
     isEntryPoint := false |}.

Definition containsEdge (fsPath : string) (cls : PythonClass) (method : PythonMethod) : CodeEdge :=
  {| from := fsPath; to := fsPath; type := contains;
     elabel := name cls +:+ " contains " +:+ mname method |}.

Definition extendsEdge (fsPath base : string) : CodeEdge :=
  {| from := fsPath; to := base; type := extends; elabel := "extends " +:+ base |}.

Definition importEdge (fsPath : string) (imp : ImportLine) : CodeEdge :=
  match imp with
  | ImportModule m =>
      {| from := fsPath; to := m; type := imports; elabel := "import " +:+ m |}
  | FromImport m items =>
      {| from := fsPath; to := m; type := imports; elabel := String.concat ", " items |}
  end.

(** One turn of [for (const cls of classes)]. *)
Definition classPart (fsPath : string) (cls : PythonClass) : ParseResult :=
  {| nodes := createClassNode cls fsPath
              :: ((fun m => createMethodNode m (name cls) fsPath) <$> methods cls);
     edges := (containsEdge fsPath cls <$> methods cls)
              ++ (extendsEdge fsPath <$> bases cls) |}.

Section Parse.
Context `{Scanner}.

(** The body of the [try] block. *)
Definition parseBody (fsPath content : string) (isEntryPoint : bool) : M ParseResult :=
  let lines := Str.split "010" content in
  classes ← call (parseClasses lines);
  let classNodes := flat_map (fun cls => nodes (classPart fsPath cls)) classes in
  let classEdges := flat_map (fun cls => edges (classPart fsPath cls)) classes in
  functions ← call (parseStandaloneFunctions lines classes);
  let nodes1 := classNodes ++ ((fun f => createFunctionNode f fsPath) <$> functions) in
  let nodes2 :=
    if bool_decide (length nodes1 = 0) && isEntryPoint
    then nodes1 ++ [createModuleNode Python fsPath content
                      (stripExt [".py"] (lastSegment fsPath))]
    else nodes1 in
  found ← call (scanImports content);
  mret {| nodes := nodes2; edges := classEdges ++ (importEdge fsPath <$> found) |}.

Definition parse (document : Error + string) (fsPath : string) (isEntryPoint : bool)
    : M ParseResult :=
  content ← call document;
  tryCatch (parseBody fsPath content isEntryPoint)
    (fun error =>
       console_error ("Failed to parse Python file " +:+ fsPath +:+ ": " +:+ message error);;
       mret Parser.empty).

End Parse.
End PythonParser.

(** ** parsers/reactParser.ts *)

Module ReactParser.
Import Eff Parser.

(** The part of a Babel syntax tree that the visitors and their helpers
    look at.  [loc] is the pair of start and end line of a node, when the
    parser recorded it. *)
Definition Loc := option (nat * nat).

Inductive Ast :=
| Program (body : list Ast)
| FunctionDeclaration (name : option string) (params : list Ast) (body : Ast) (loc : Loc)
| VariableDeclaration (declarations : list Ast)
| VariableDeclarator (name : option string) (init : option Ast) (loc : Loc)
| ArrowFunctionExpression (params : list Ast) (body : Ast)
| FunctionExpression (name : option string) (params : list Ast) (body : Ast)
| ClassDeclaration (name : option string) (superClass : option Ast)
    (members : list Ast) (loc : Loc)
| BlockStatement (body : list Ast)
| ReturnStatement (argument : option Ast)
| JSXElement (children : list Ast)
| Identifier (name : string)
| MemberExpression (object property : Ast)
| ObjectPattern (keys : list (option string))   (* [None]: a rest element *)
| ImportDeclaration (source : string)
| Other (children : list Ast).                  (* every other kind of node *)

(** [@babel/parser]: a tree, or a thrown syntax error. *)
Class Babel := { babel_parse : string → Error + Ast }.

Fixpoint hasJSXReturn (body : Ast) : bool :=
  match body with
  | ReturnStatement (Some (JSXElement _)) => true
  | ReturnStatement _ => false
  | BlockStatement stmts => existsb hasJSXReturn stmts
  | Program stmts => existsb hasJSXReturn stmts
  | _ => false
  end.

(** The [body] of a node that has one. *)
Definition bodyOf (node : Ast) : option Ast :=
  match node with
  | FunctionDeclaration _ _ b _ | ArrowFunctionExpression _ b | FunctionExpression _ _ b => Some b
  | _ => None
  end.

Definition isReactComponent (node : Ast) : bool :=
  match bodyOf node with
  | Some (BlockStatement stmts) => hasJSXReturn (BlockStatement stmts)
  | Some (JSXElement _) => true
  | _ => false
  end.

Definition isReactClassComponent (superClass : option Ast) : bool :=
  match superClass with
  | Some (Identifier n) => String.eqb n "Component"
  | Some (MemberExpression _ (Identifier n)) => String.eqb n "Component"
  | _ => false
  end.

Definition languageOf (fsPath : string) : Language :=
  if Str.endsWith fsPath ".tsx" || Str.endsWith fsPath ".ts" then TypeScript else JavaScript.

Definition nameOr (name : option string) : string := default "Anonymous" name.
Definition startOf (loc : Loc) : nat := default 0 (fst <$> loc).
Definition endOf (loc : Loc) : nat := default 0 (snd <$> loc).

(** [node.params] of the node handed to [extractProps]. *)
Definition extractProps (params : list Ast) : list string :=
  match params with
  | ObjectPattern keys :: _ => omap (fun k => k) keys
  | _ => []
  end.

Definition createComponentNode (name : option string) (params : list Ast) (loc : Loc)
    (fsPath : string) : CodeNode :=
  {| id := fsPath +:+ ":component:" +:+ nameOr name;
     label := nameOr name;
     kind := KComponent;
     language := languageOf fsPath;
     filePath := fsPath;
     startLine := startOf loc;
     endLine := endOf loc;
     visibility := None; isStatic := false; isAsync := false;
     props := extractProps params;
     isEntryPoint := false |}.

(** [`${fsPath}:function:${name}:${node.loc?.start.line}`] *)
Definition createFunctionNode (name : option string) (loc : Loc) (fsPath : string) : CodeNode :=
  {| id := fsPath +:+ ":function:" +:+ nameOr name +:+ ":"
           +:+ match loc with Some (l, _) => pretty l | None => "undefined" end;
     label := nameOr name;
     kind := KFunction;
     language := languageOf fsPath;
     filePath := fsPath;
     startLine := startOf loc;
     endLine := endOf loc;
     visibility := None; isStatic := false; isAsync := false;
     props := [];
     isEntryPoint := false |}.

Definition createClassComponentNode (name : option string) (loc : Loc) (fsPath : string)
    : CodeNode :=
  {| id := fsPath +:+ ":class:" +:+ nameOr name;
     label := nameOr name;
     kind := KClass;
     language := languageOf fsPath;
     filePath := fsPath;
     startLine := startOf loc;
     endLine := endOf loc;
     visibility := None; isStatic := false; isAsync := false;
     props := [];
     isEntryPoint := false |}.

(** The four visitors: what entering one node pushes onto [nodes]. *)
Definition visit (fsPath : string) (node : Ast) : list CodeNode :=
  match node with
  | FunctionDeclaration name params _ loc =>
      if isReactComponent node then [createComponentNode name params loc fsPath]
      else [createFunctionNode name loc fsPath]
  | VariableDeclarator name (Some init) loc =>
      match init with
      | ArrowFunctionExpression _ _ | FunctionExpression _ _ _ =>
          (* the declarator itself is handed on: it has no [params] *)
          if isReactComponent init then [createComponentNode name [] loc fsPath] else []
      | _ => []
      end
  | ClassDeclaration name superClass _ loc =>
      if isReactClassComponent superClass then [createClassComponentNode name loc fsPath]
      else []
  | _ => []
  end.

(** [traverse(ast, visitors)]: every node is entered before its children,
    the children in source order. *)
Fixpoint traverse (fsPath : string) (node : Ast) : list CodeNode :=
  visit fsPath node ++
  match node with
  | Program body => flat_map (traverse fsPath) body
  | FunctionDeclaration _ params body _ =>
      flat_map (traverse fsPath) params ++ traverse fsPath body
  | VariableDeclaration ds => flat_map (traverse fsPath) ds
  | VariableDeclarator _ init _ =>
      match init with Some i => traverse fsPath i | None => [] end
  | ArrowFunctionExpression params body =>
      flat_map (traverse fsPath) params ++ traverse fsPath body
  | FunctionExpression _ params body =>
      flat_map (traverse fsPath) params ++ traverse fsPath body
  | ClassDeclaration _ superClass members _ =>
      match superClass with Some c => traverse fsPath c | None => [] end
      ++ flat_map (traverse fsPath) members
  | BlockStatement body => flat_map (traverse fsPath) body
  | ReturnStatement argument =>
      match argument with Some a => traverse fsPath a | None => [] end
  | JSXElement children => flat_map (traverse fsPath) children
  | MemberExpression object property => traverse fsPath object ++ traverse fsPath property
  | Other children => flat_map (traverse fsPath) children
  | Identifier _ | ObjectPattern _ | ImportDeclaration _ => []
  end.

Section Parse.
Context `{Babel}.

Definition parseBody (fsPath content : string) (isEntryPoint : bool) : M ParseResult :=
  ast ← call (babel_parse content);
  let nodes1 := traverse fsPath ast in
  let isBootstrapFile :=
    Str.includes content "createRoot" || Str.includes content "ReactDOM.render"
    || Str.includes content "render(" in
  let nodes2 :=
    if bool_decide (length nodes1 = 0) && (isBootstrapFile || isEntryPoint)
    then nodes1 ++ [createModuleNode (languageOf fsPath) fsPath content
                      (stripExt [".tsx"; ".ts"; ".jsx"; ".js"] (lastSegment fsPath))]
    else nodes1 in
  mret {| nodes := nodes2; edges := [] |}.

Definition parse (document : Error + string) (fsPath : string) (isEntryPoint : bool)
    : M ParseResult :=
  content ← call document;
  tryCatch (parseBody fsPath content isEntryPoint)
    (fun error =>
       console_error ("Failed to parse " +:+ fsPath +:+ ": " +:+ message error);;
       mret Parser.empty).

End Parse.
End ReactParser.

(** ** Sample graphs used by the concrete checks of Part II *)

Module Samples.

Definition node (i : string) : CodeNode :=
  {| id := i; label := i; kind := KClass; language := TypeScript;
     filePath := i; startLine := 1; endLine := 1; visibility := None;
     isStatic := false; isAsync := false; props := [];
     isEntryPoint := false |}.

Definition arrow (a b : string) : CodeEdge :=
  {| from := a; to := b; type := imports; elabel := EmptyString |}.

Definition meta (n : nat) : GraphMetadata :=
  {| totalFiles := n; totalNodes := n; languages := [TypeScript];
     rootPath := "/w"; analyzedAt := 0; entryPoints := None |}.

(** A root with one import. *)
Definition pair_graph : CodeGraph :=
  {| nodes := [node "r"; node "a"];
     edges := [arrow "r" "a"];
     metadata := meta 2 |}.

(** [x] is reached by the long path r-a-b-x before the short one r-x. *)
Definition diamond : CodeGraph :=
  {| nodes := [node "r"; node "a"; node "b"; node "x"; node "y"; node "z"];
     edges := [arrow "r" "a"; arrow "r" "x"; arrow "a" "b"; arrow "b" "x";
               arrow "x" "y"; arrow "y" "z"];
     metadata := meta 6 |}.

(** A chain r-a-b with no second path to any node. *)
Definition chain : CodeGraph :=
  {| nodes := [node "r"; node "a"; node "b"];
     edges := [arrow "r" "a"; arrow "a" "b"];
     metadata := meta 3 |}.

(** The only edge points at an id that no node carries. *)
Definition dangling : CodeGraph :=
  {| nodes := [node "r"];
     edges := [arrow "r" "ghost"];
     metadata := meta 1 |}.

End Samples.

(** ** Sample source files, with what the scanners find in them *)

Module SourceSamples.
Import Eff.

Definition unlines (ls : list string) : string := String.concat (String "010" EmptyString) ls.

(** [/w/Foo.java] *)
Definition fooJava : string :=
  unlines ["public class Foo {";
           "  public void bar() {}";
           "}"].

Definition Foo : JavaParser.JavaClass :=
  {| JavaParser.name := "Foo"; JavaParser.startLine := 0; JavaParser.endLine := 2;
     JavaParser.visibility := Public; JavaParser.isAbstract := false;
     JavaParser.isFinal := false; JavaParser.isStatic := false;
     JavaParser.extendsClass := None; JavaParser.implementsInterfaces := [];
     JavaParser.annotations := [] |}.

Definition bar : JavaParser.JavaMethod :=
  {| JavaParser.mname := "bar"; JavaParser.mstartLine := 1; JavaParser.mendLine := 1;
     JavaParser.mvisibility := Public; JavaParser.misAbstract := false;
     JavaParser.misStatic := false; JavaParser.misSynchronized := false;
     JavaParser.className := "Foo" |}.

(** The Java scanners on [fooJava]: the class on line 0 closes on line 2,
    the one method is on line 1; no interface, no import. *)
Definition javaScanner : JavaParser.Scanner :=
  {| JavaParser.parseClasses lines :=
       inr (if decide (lines = Str.split "010" fooJava) then [Foo] else []);
     JavaParser.parseMethods lines first last className :=
       inr (if decide (lines = Str.split "010" fooJava ∧ className = "Foo") then [bar] else []);
     JavaParser.parseInterfaces _ := inr [];
     JavaParser.scanImports _ := inr [] |}.

(** [/w/dog.py] *)
Definition dogPy : string :=
  unlines ["class Dog(Animal):";
           "    def speak(self): pass"].

Definition speak : PythonParser.PythonMethod :=
  {| PythonParser.mname := "speak"; PythonParser.mstartLine := 1;
     PythonParser.mendLine := 1; PythonParser.mdecorators := [];
     PythonParser.misAsync := false; PythonParser.misStatic := false |}.

Definition Dog : PythonParser.PythonClass :=
  {| PythonParser.name := "Dog"; PythonParser.startLine := 0; PythonParser.endLine := 1;
     PythonParser.decorators := []; PythonParser.bases := ["Animal"];
     PythonParser.methods := [speak] |}.

Definition pythonScanner : PythonParser.Scanner :=
  {| PythonParser.parseClasses lines :=
       inr (if decide (lines = Str.split "010" dogPy) then [Dog] else []);
     PythonParser.parseStandaloneFunctions _ _ := inr [];
     PythonParser.scanImports _ := inr [] |}.

(** [/w/src/math.ts], and the tree Babel builds for it. *)
Definition mathTs : string := "const add = (a, b) => a + b;".

Definition mathAst : ReactParser.Ast :=
  ReactParser.Program
    [ReactParser.VariableDeclaration
       [ReactParser.VariableDeclarator (Some "add")
          (Some (ReactParser.ArrowFunctionExpression
                   [ReactParser.Identifier "a"; ReactParser.Identifier "b"]
                   (ReactParser.Other [ReactParser.Identifier "a"; ReactParser.Identifier "b"])))
          (Some (1, 1))]].

(** [function add(a, b) { return a + b; }], the same function declared. *)
Definition addDeclared : ReactParser.Ast :=
  ReactParser.FunctionDeclaration (Some "add")
    [ReactParser.Identifier "a"; ReactParser.Identifier "b"]
    (ReactParser.BlockStatement
       [ReactParser.ReturnStatement
          (Some (ReactParser.Other [ReactParser.Identifier "a"; ReactParser.Identifier "b"]))])
    (Some (1, 1)).

(** Babel on [mathTs]; any other text is taken to be malformed. *)
Definition babel : ReactParser.Babel :=
  {| ReactParser.babel_parse content :=
       if decide (content = mathTs) then inr mathAst
       else inl {| message := "SyntaxError: Unexpected token" |} |}.

End SourceSamples.

(** ** graph/graphBuilder.ts, continued *)

Module GraphBuilderMore.
Import GraphBuilder.

(** [build]: as [buildFromEntryPoints], with no entry-point list. *)
Definition build (ns : list CodeNode) (es : list CodeEdge) (root : string) (now : Z)
    : CodeGraph :=
  let uniqueNodes := deduplicateNodes ns in
  let uniqueEdges := deduplicateEdges es in
  {| nodes := uniqueNodes;
     edges := uniqueEdges;
     metadata :=
       {| totalFiles := length (distinct (filePath <$> uniqueNodes));
          totalNodes := length uniqueNodes;
          languages := distinct (language <$> uniqueNodes);
          rootPath := root;
          analyzedAt := now;
          entryPoints := None |} |}.

(** [reach g k a b]: [b] is reached from [a] along [k] edges of [g], each
    followed from its [from] to its [to]. *)
Inductive reach (g : CodeGraph) : nat → string → string → Prop :=
| reach_here a : reach g 0 a a
| reach_step k e b : e ∈ edges g → reach g k (to e) b → reach g (S k) (from e) b.

End GraphBuilderMore.

(** ** analyzers/importAnalyzer.ts : the dependencies of one file *)

Module ImportAnalyzerMore.
Import Eff ImportAnalyzer.

Record ImportInfo := {
  source : string;
  specifiers : list string;
  isDefault : bool;
  isNamespace : bool;
  line : nat
}.

Inductive DependencyType := DImport | DRequire | DDynamic.

Record DependencyInfo := {
  sourceFile : string;
  targetFile : string;
  importedItems : list string;
  dtype : DependencyType
}.

Section BuildDependencyMap.
Context `{PathModule}.
Variable fs : gset string.

(** [path.extname] *)
Variable extname : string → string.

(** The two import scanners.  Each opens the document, which can fail,
    and returns the imports it found. *)
Variable analyzeImports : string → M (list ImportInfo).
Variable analyzeJavaImports : string → M (list ImportInfo).

(** One turn of [for (const imp of imports)].  [if (resolvedPath)] is
    false for null and for the empty string. *)
Definition dependencyStep (fsPath workspaceRoot : string)
    (dependencies : list DependencyInfo) (imp : ImportInfo) : list DependencyInfo :=
  match resolveImportPath fs fsPath (source imp) workspaceRoot with
  | Some resolvedPath =>
      if String.eqb resolvedPath EmptyString then dependencies
      else dependencies ++ [{| sourceFile := fsPath;
                               targetFile := resolvedPath;
                               importedItems := specifiers imp;
                               dtype := DImport |}]
  | None => dependencies
  end.

Definition buildDependencyMap (fsPath workspaceRoot : string) : M (list DependencyInfo) :=
  let ext := extname fsPath in
  imports ← (if String.eqb ext ".java" then analyzeJavaImports fsPath
             else analyzeImports fsPath);
  mret (foldl (dependencyStep fsPath workspaceRoot) [] imports).

End BuildDependencyMap.
End ImportAnalyzerMore.

(** ** analyzers/workspaceAnalyzer.ts : which files are parsed *)

Module WorkspaceAnalyzer.
Import Eff ImportAnalyzerMore.

(** [Set.prototype.add]: a [Set] keeps its elements in insertion order,
    the order in which Step 5 parses the files. *)
Definition set_add (x : string) (collected : list string) : list string :=
  if bool_decide (x ∈ collected) then collected else collected ++ [x].

(** [collected] is updated in place; the function returns its new
    content.  Each call that gets past the guard has [depth < maxDepth]
    and calls itself at [depth + 1], so [maxDepth - depth] bounds the
    nesting: [fuel] counts it down. *)
Fixpoint collectDependencyTree (fuel : nat) (filePath : string)
    (dependencyMap : gmap string (list string)) (collected : list string)
    (depth maxDepth : nat) : list string :=
  if (maxDepth <=? depth) || bool_decide (filePath ∈ collected) then collected
  else
    match fuel with
    | 0 => collected
    | S fuel' =>
        let dependencies := default [] (dependencyMap !! filePath) in
        foldl (fun collected dep =>
                 collectDependencyTree fuel' dep dependencyMap collected (depth + 1) maxDepth)
              (set_add filePath collected) dependencies
    end.

(** [depReach m k a b]: [b] is reached from [a] by following [k] entries
    of the dependency map. *)
Inductive depReach (dependencyMap : gmap string (list string))
    : nat → string → string → Prop :=
| depReach_here a : depReach dependencyMap 0 a a
| depReach_step k a dependencies dep b :
    dependencyMap !! a = Some dependencies → dep ∈ dependencies →
    depReach dependencyMap k dep b → depReach dependencyMap (S k) a b.

(** Step 4 of [analyze]. *)
Definition filesToParse (entryPoints : list EntryPointDetector.EntryPoint)
    (dependencyMap : gmap string (list string))
    (javaFiles reactFiles pythonFiles : list string) : list string :=
  if (0 <? length entryPoints)%nat
  then foldl (fun collected ep =>
                collectDependencyTree 5 (EntryPointDetector.filePath ep)
                                      dependencyMap collected 0 5)
             [] (take 3 entryPoints)
  else foldl (fun collected f => set_add f collected) []
             (javaFiles ++ reactFiles ++ pythonFiles).

(** [entryNode.isEntryPoint = true] *)
Definition setEntryPoint (entryNode : CodeNode) : CodeNode :=
  {| id := id entryNode;
     label := label entryNode;
     kind := kind entryNode;
     language := language entryNode;
     Types.filePath := Types.filePath entryNode;
     startLine := startLine entryNode;
     endLine := endLine entryNode;
     visibility := visibility entryNode;
     isStatic := isStatic entryNode;
     isAsync := isAsync entryNode;
     props := props entryNode;
     isEntryPoint := true |}.

(** Step 6 of [analyze], one turn: [allNodes.find] gives the first node
    of the entry point's file, and that object is flagged in place. *)
Definition markEntryNode (allNodes : list CodeNode) (ep : EntryPointDetector.EntryPoint)
    : list CodeNode :=
  match list_find (fun n => Types.filePath n = EntryPointDetector.filePath ep) allNodes with
  | Some (i, entryNode) => <[i := setEntryPoint entryNode]> allNodes
  | None => allNodes
  end.

Definition markEntryNodes (entryPoints : list EntryPointDetector.EntryPoint)
    (allNodes : list CodeNode) : list CodeNode :=
  foldl markEntryNode allNodes entryPoints.

Section DependencyMap.
Context `{PathModule}.
Variable fs : gset string.
Variable extname : string → string.
Variable analyzeImports : string → M (list ImportInfo).
Variable analyzeJavaImports : string → M (list ImportInfo).

Definition importEdge (file : string) (dep : DependencyInfo) : CodeEdge :=
  {| from := file; to := targetFile dep; type := imports;
     elabel := String.concat ", " (importedItems dep) |}.

(** Step 3 of [analyze], one turn of the loop over the files with its
    [try] and its empty [catch]. *)
Definition dependencyMapStep (workspaceRoot : string)
    (acc : gmap string (list string) * list CodeEdge) (file : string)
    : M (gmap string (list string) * list CodeEdge) :=
  tryCatch
    (deps ← buildDependencyMap fs extname analyzeImports analyzeJavaImports
              file workspaceRoot;
     let targets := targetFile <$> deps in
     mret (<[file := targets]> acc.1, acc.2 ++ (importEdge file <$> deps)))
    (fun _ => mret acc).

Definition buildDependencyMaps (workspaceRoot : string) (files : list string)
    (allEdges : list CodeEdge) : M (gmap string (list string) * list CodeEdge) :=
  forEach (dependencyMapStep workspaceRoot) files (∅, allEdges).

(** What Step 3 keeps true of the map and of the edges it has added. *)
Definition targets_exist (files : list string)
    (acc : gmap string (list string) * list CodeEdge) (added : list CodeEdge) : Prop :=
  (∀ f ts, acc.1 !! f = Some ts →
     f ∈ files ∧ ∀ t, t ∈ ts → t ∈ fs ∧ ∃ e, e ∈ added ∧ from e = f ∧ to e = t)
  ∧ (∀ e, e ∈ added → type e = imports ∧ from e ∈ files ∧ to e ∈ fs).

End DependencyMap.
End WorkspaceAnalyzer.

(** ** parsers: what the nodes of one file have in common *)

Module ParsedNodes.

(** A node for a declaration of the file [fsPath], written in [lang]: it
    carries the path of the file, its key starts with that path, and it
    is not flagged as entry point. *)
Definition declared_in (fsPath : string) (lang : Language) (n : CodeNode) : Prop :=
  filePath n = fsPath ∧ language n = lang ∧ isEntryPoint n = false
  ∧ kind n ≠ KModule ∧ ∃ rest, id n = fsPath +:+ ":" +:+ rest.

(** The nodes a parser body returns: the declarations it found, or, when
    it found none and the fallback applies, the one module node. *)
Definition body_nodes (fsPath : string) (lang : Language) (fallback : bool)
    (ns : list CodeNode) : Prop :=
  (ns ≠ [] ∧ Forall (declared_in fsPath lang) ns)
  ∨ (fallback = true
     ∧ ∃ content name, ns = [Parser.createModuleNode lang fsPath content name])
  ∨ (fallback = false ∧ ns = []).

(** [isBootstrapFile] of reactParser.ts *)
Definition isBootstrapFile (content : string) : bool :=
  Str.includes content "createRoot" || Str.includes content "ReactDOM.render"
  || Str.includes content "render(".

End ParsedNodes.

(* ===================================================================== *)
(** * Part II.  Properties                                                *)
(* ===================================================================== *)

(** ** The depth-limited walk of [GraphBuilder.filterByDepth] *)

Section Walk.
Import GraphBuilder.
Variable g : CodeGraph.
Variable maxDepth : nat.

Lemma fold_left_agree {A B} (f h : A → B → A) (l : list B) :
  (∀ a b, b ∈ l → f a b = h a b) → ∀ a, fold_left f l a = fold_left h l a.
Proof.
  induction l as [|b l IH]; intros Hfh a; simpl; [done|].
  rewrite Hfh by left. apply IH. intros a' b' Hb'. apply Hfh. by right.
Qed.

(** Enough fuel: from [S maxDepth - depth] on, the result no longer
    depends on the fuel, so the cut at [fuel = 0] is the source's own
    return on [depth > maxDepth]. *)
Lemma traverse_fuel f1 : ∀ f2 nodeId depth w,
  S maxDepth - depth ≤ f1 → S maxDepth - depth ≤ f2 →
  traverse f1 g maxDepth nodeId depth w = traverse f2 g maxDepth nodeId depth w.
Proof.
  induction f1 as [|f1 IH]; intros [|f2] nodeId depth w H1 H2; simpl; try done.
  - assert (Hd : (maxDepth <? depth)%nat = true) by (apply Nat.ltb_lt; lia).
    by rewrite Hd.
  - assert (Hd : (maxDepth <? depth)%nat = true) by (apply Nat.ltb_lt; lia).
    by rewrite Hd.
  - destruct ((maxDepth <? depth)%nat || bool_decide (nodeId ∈ visited w)); [done|].
    apply fold_left_agree. intros a b _. apply IH; lia.
Qed.

(** [visited] and [nodesToInclude] are filled together. *)
Lemma traverse_same_sets fuel : ∀ nodeId depth w,
  visited w = nodesToInclude w →
  visited (traverse fuel g maxDepth nodeId depth w)
  = nodesToInclude (traverse fuel g maxDepth nodeId depth w).
Proof.
  induction fuel as [|fuel IH]; intros nodeId depth w Hw; simpl; [done|].
  destruct ((maxDepth <? depth)%nat || bool_decide (nodeId ∈ visited w)); [done|].
  assert (Hin : visited (enter nodeId w) = nodesToInclude (enter nodeId w))
    by (simpl; by rewrite Hw).
  revert Hin. generalize (enter nodeId w).
  induction (outgoing g nodeId) as [|e es IHes]; intros w0 Hw0; simpl; [done|].
  apply IHes, IH. done.
Qed.

Lemma extend_nil w : extend w [] [] = w.
Proof.
  destruct w as [v n e]. unfold extend; simpl. rewrite app_nil_r.
  f_equal; set_solver.
Qed.

Lemma extend_extend w i1 e1 i2 e2 :
  extend (extend w i1 e1) i2 e2 = extend w (i1 ++ i2) (e1 ++ e2).
Proof.
  unfold extend; simpl. rewrite app_assoc. f_equal; set_solver.
Qed.

(** The walk on a part of the graph that meets no id twice is the plain
    unfolding. *)
Lemma traverse_unfold rem : ∀ nodeId depth w,
  rem + depth = S maxDepth →
  NoDup (unfoldIds g rem nodeId) →
  (∀ x, x ∈ unfoldIds g rem nodeId → x ∉ visited w) →
  traverse rem g maxDepth nodeId depth w
  = extend w (unfoldIds g rem nodeId) (unfoldEdges g rem nodeId).
Proof.
  induction rem as [|rem IH]; intros nodeId depth w Hrem Hnd Hfresh; simpl.
  { by rewrite extend_nil. }
  assert (Hd : (maxDepth <? depth)%nat = false) by (apply Nat.ltb_ge; lia).
  assert (Hn : nodeId ∉ visited w) by (apply Hfresh; simpl; left).
  rewrite Hd, bool_decide_eq_false_2 by done. simpl.
  simpl in Hnd, Hfresh. apply NoDup_cons in Hnd as [Hhead Hnd].
  assert (Hstart : enter nodeId w = extend w [nodeId] []).
  { unfold enter, extend; simpl. rewrite app_nil_r. f_equal; set_solver. }
  rewrite Hstart.
  assert (Hgen : ∀ es w0,
    NoDup (flat_map (fun e => unfoldIds g rem (to e)) es) →
    (∀ x, x ∈ flat_map (fun e => unfoldIds g rem (to e)) es → x ∉ visited w0) →
    fold_left (fun w' edge => traverse rem g maxDepth (to edge) (S depth) (pushEdge edge w')) es w0
    = extend w0 (flat_map (fun e => unfoldIds g rem (to e)) es)
                (flat_map (fun e => e :: unfoldEdges g rem (to e)) es)).
  { induction es as [|e es IHes]; intros w0 Hnd0 Hfr0; simpl.
    { by rewrite extend_nil. }
    simpl in Hnd0, Hfr0. apply NoDup_app in Hnd0 as (Hnd1 & Hdisj & Hnd2).
    rewrite (IH (to e) (S depth) (pushEdge e w0)); [|lia|done|].
    2:{ intros x Hx. simpl. apply Hfr0, elem_of_app. by left. }
    rewrite IHes; [|done|].
    2:{ intros x Hx. simpl. intros [Hv|Hv]%elem_of_union.
        - revert Hv. apply Hfr0, elem_of_app. by right.
        - apply elem_of_list_to_set in Hv. by apply (Hdisj x). }
    assert (Hpush : extend (pushEdge e w0) (unfoldIds g rem (to e)) (unfoldEdges g rem (to e))
                    = extend w0 (unfoldIds g rem (to e)) (e :: unfoldEdges g rem (to e))).
    { unfold extend, pushEdge; simpl. by rewrite <- app_assoc. }
    rewrite Hpush, extend_extend. done. }
  rewrite Hgen; [|done|].
  - rewrite extend_extend. done.
  - intros x Hx. simpl. intros [Hv|Hv]%elem_of_union.
    + revert Hv. apply Hfresh. by right.
    + assert (x = nodeId) by set_solver. by subst.
Qed.

End Walk.

Section FilterByDepth.
Import GraphBuilder.

Lemma fold_pushEdge es : ∀ w,
  fold_left (fun w' edge => pushEdge edge w') es w
  = {| visited := visited w; nodesToInclude := nodesToInclude w;
       edgesToInclude := edgesToInclude w ++ es |}.
Proof.
  induction es as [|e es IH]; intros [v n acc]; simpl.
  - by rewrite app_nil_r.
  - rewrite IH. simpl. by rewrite <- app_assoc.
Qed.

Lemma walkFrom_zero g root :
  walkFrom g root 0
  = {| visited := {[root]} ∪ ∅; nodesToInclude := {[root]} ∪ ∅;
       edgesToInclude := outgoing g root |}.
Proof.
  unfold walkFrom; simpl.
  rewrite bool_decide_eq_false_2 by set_solver.
  apply fold_pushEdge.
Qed.

Lemma filter_none {A} (P : A → Prop) `{∀ x, Decision (P x)} (l : list A) :
  (∀ x, x ∈ l → ¬ P x) → filter P l = [].
Proof.
  induction l as [|a l IH]; intros Hl; [done|].
  rewrite filter_cons_False by (apply Hl; left).
  apply IH. intros x Hx. apply Hl. by right.
Qed.

Lemma filter_unique_id (l : list CodeNode) (n : CodeNode) :
  NoDup (id <$> l) → n ∈ l → filter (fun m => id m = id n) l = [n].
Proof.
  induction l as [|m l IH]; intros Hnd Hin; [by apply elem_of_nil in Hin|].
  rewrite fmap_cons in Hnd. apply NoDup_cons in Hnd as [Hm Hnd].
  apply elem_of_cons in Hin as [->|Hin].
  - rewrite filter_cons_True by done. f_equal.
    apply filter_none. intros x Hx Heq.
    apply Hm. rewrite <- Heq. by apply list_elem_of_fmap_2.
  - rewrite filter_cons_False; [by apply IH|].
    intros Heq. apply Hm. rewrite Heq. by apply list_elem_of_fmap_2.
Qed.

Lemma filter_length_mono {A} (P Q : A → Prop)
    `{∀ x, Decision (P x)} `{∀ x, Decision (Q x)} (l : list A) :
  (∀ x, x ∈ l → P x → Q x) → length (filter P l) ≤ length (filter Q l).
Proof.
  induction l as [|a l IH]; intros HPQ; [done|].
  assert (IH' : length (filter P l) ≤ length (filter Q l))
    by (apply IH; intros x Hx; apply HPQ; by right).
  destruct (decide (P a)) as [Hp|Hp].
  - rewrite (filter_cons_True P) by done.
    rewrite (filter_cons_True Q) by (apply HPQ; [left|done]). simpl; lia.
  - rewrite (filter_cons_False P) by done.
    destruct (decide (Q a)).
    + rewrite (filter_cons_True Q) by done. simpl; lia.
    + by rewrite (filter_cons_False Q).
Qed.

Lemma flat_map_sublist {A B} (f h : A → list B) (l : list A) :
  (∀ a, f a `sublist_of` h a) → flat_map f l `sublist_of` flat_map h l.
Proof.
  intros Hfh. induction l as [|a l IH]; simpl; [done|]. by apply sublist_app.
Qed.

Lemma unfoldIds_S g rem : ∀ nodeId,
  unfoldIds g rem nodeId `sublist_of` unfoldIds g (S rem) nodeId.
Proof.
  induction rem as [|rem IH]; intros nodeId; [apply sublist_nil_l|].
  change (unfoldIds g (S rem) nodeId)
    with (nodeId :: flat_map (fun e => unfoldIds g rem (to e)) (outgoing g nodeId)).
  change (unfoldIds g (S (S rem)) nodeId)
    with (nodeId :: flat_map (fun e => unfoldIds g (S rem) (to e)) (outgoing g nodeId)).
  apply sublist_skip, flat_map_sublist. intros e. apply IH.
Qed.

Lemma unfoldEdges_S g rem : ∀ nodeId,
  unfoldEdges g rem nodeId `sublist_of` unfoldEdges g (S rem) nodeId.
Proof.
  induction rem as [|rem IH]; intros nodeId; [apply sublist_nil_l|].
  change (unfoldEdges g (S rem) nodeId)
    with (flat_map (fun e => e :: unfoldEdges g rem (to e)) (outgoing g nodeId)).
  change (unfoldEdges g (S (S rem)) nodeId)
    with (flat_map (fun e => e :: unfoldEdges g (S rem) (to e)) (outgoing g nodeId)).
  apply flat_map_sublist. intros e. apply sublist_skip, IH.
Qed.

Lemma unfoldIds_le g r1 r2 nodeId :
  r1 ≤ r2 → unfoldIds g r1 nodeId `sublist_of` unfoldIds g r2 nodeId.
Proof.
  induction 1 as [|r2 _ IH]; [done|]. etrans; [exact IH|apply unfoldIds_S].
Qed.

Lemma unfoldEdges_le g r1 r2 nodeId :
  r1 ≤ r2 → unfoldEdges g r1 nodeId `sublist_of` unfoldEdges g r2 nodeId.
Proof.
  induction 1 as [|r2 _ IH]; [done|]. etrans; [exact IH|apply unfoldEdges_S].
Qed.

(** On a part of the graph that unfolds without meeting an id twice,
    the walk returns the unfolding. *)
Lemma walkFrom_tree g root d :
  NoDup (unfoldIds g (S d) root) →
  walkFrom g root d
  = extend emptyWalk (unfoldIds g (S d) root) (unfoldEdges g (S d) root).
Proof.
  intros Hnd. unfold walkFrom. apply traverse_unfold; [lia|done|].
  intros x _. simpl. set_solver.
Qed.

End FilterByDepth.

Section FilterByDepthClaims.
Import GraphBuilder.

(** C2, as the code has it.  With unique node ids and the root id
    carried by [rootNode], [filterByDepth g root 0] returns the node list
    [[rootNode]], and its edge list is the list of all edges of the graph
    that leave the root, in graph order (not the empty list). *)
Theorem filterByDepth_zero (g : CodeGraph) (root : string) (rootNode : CodeNode) :
  NoDup (id <$> nodes g) →
  rootNode ∈ nodes g →
  id rootNode = root →
  nodes (filterByDepth g root 0) = [rootNode]
  ∧ edges (filterByDepth g root 0) = filter (fun e => from e = root) (edges g).
Proof.
  intros Hnd Hin Hid. unfold filterByDepth. rewrite walkFrom_zero. simpl.
  split; [|done].
  rewrite <- (filter_unique_id (nodes g) rootNode Hnd Hin).
  apply list_filter_iff. intros n. rewrite Hid. set_solver.
Qed.

Lemma filterByDepth_zero_witness :
  nodes (filterByDepth Samples.pair_graph "r" 0) = [Samples.node "r"]
  ∧ edges (filterByDepth Samples.pair_graph "r" 0)
    = filter (fun e => from e = "r") (edges Samples.pair_graph).
Proof.
  apply (filterByDepth_zero Samples.pair_graph "r" (Samples.node "r")).
  - vm_compute. repeat constructor; set_solver.
  - vm_compute. left.
  - reflexivity.
Defined.

(** C2 as stated fails: the root is present, and the result at depth 0
    still carries the root's outgoing edge. *)
Lemma filterByDepth_zero_has_edges :
  Samples.node "r" ∈ nodes Samples.pair_graph
  ∧ nodes (filterByDepth Samples.pair_graph "r" 0) = [Samples.node "r"]
  ∧ edges (filterByDepth Samples.pair_graph "r" 0) = [Samples.arrow "r" "a"]
  ∧ edges (filterByDepth Samples.pair_graph "r" 0) ≠ [].
Proof. split; [left|]. by vm_compute. Qed.




End FilterByDepthClaims.

Section TotalNodes.
Import GraphBuilder.

Lemma walkFrom_same_sets g root d :
  visited (walkFrom g root d) = nodesToInclude (walkFrom g root d).
Proof. unfold walkFrom. by apply traverse_same_sets. Qed.

Lemma length_lt_size (l : list string) (X : gset string) (x : string) :
  NoDup l → (∀ y, y ∈ l → y ∈ X) → x ∈ X → x ∉ l → length l < size X.
Proof.
  intros Hnd Hsub Hx Hnx.
  rewrite <- (size_list_to_set (C := gset string) l Hnd).
  apply subset_size. split; [set_solver|].
  intros Hrev. apply Hnx. specialize (Hrev x Hx). set_solver.
Qed.




End TotalNodes.

Section Dependencies.
Import GraphBuilder.

Lemma findNode_none g nodeId :
  (∀ n, n ∈ nodes g → id n ≠ nodeId) → findNode g nodeId = None.
Proof.
  intros Hno. unfold findNode.
  assert (Hf : list_find (fun n => id n = nodeId) (nodes g) = None).
  { apply list_find_None, Forall_forall. exact Hno. }
  by rewrite Hf.
Qed.

Lemma findNode_first g nodeId l1 node l2 :
  nodes g = l1 ++ node :: l2 → id node = nodeId →
  (∀ n, n ∈ l1 → id n ≠ nodeId) →
  findNode g nodeId = Some node.
Proof.
  intros Hsplit Hid Hbefore. unfold findNode.
  assert (Hf : list_find (fun n => id n = nodeId) (nodes g) = Some (length l1, node)).
  { apply list_find_Some. rewrite Hsplit. split; [|split; [done|]].
    - by apply list_lookup_middle.
    - intros j y Hj Hlt. apply Hbefore.
      rewrite lookup_app_l in Hj by done. by eapply list_elem_of_lookup_2. }
  by rewrite Hf.
Qed.

Lemma elem_of_targets (P : CodeEdge → Prop) `{∀ e, Decision (P e)}
    (f : CodeEdge → string) (es : list CodeEdge) (s : string) :
  s ∈ f <$> filter P es ↔ Exists (fun e => P e ∧ f e = s) es.
Proof.
  rewrite list_elem_of_fmap, Exists_exists. split.
  - intros (e & -> & [HP He]%list_elem_of_filter). by exists e.
  - intros (e & He & HP & <-). exists e. split; [done|].
    by apply list_elem_of_filter.
Qed.

(** C8.  When no node carries the id, [getDependencies] and
    [getDependents] return the empty list.  Otherwise, with [node] the
    first node that carries it, [getDependencies] returns exactly the
    nodes of the graph, in graph order, whose file path is the target of
    some edge whose source is [node]'s file path, and [getDependents]
    exactly those whose file path is the source of some edge whose
    target is [node]'s file path. *)
Theorem getDependencies_spec (g : CodeGraph) (nodeId : string) :
  ((∀ n, n ∈ nodes g → id n ≠ nodeId) →
     getDependencies g nodeId = [] ∧ getDependents g nodeId = [])
  ∧ (∀ l1 node l2,
       nodes g = l1 ++ node :: l2 → id node = nodeId →
       (∀ n, n ∈ l1 → id n ≠ nodeId) →
       getDependencies g nodeId
         = filter (fun n => Exists (fun e => from e = filePath node ∧ to e = filePath n)
                                   (edges g)) (nodes g)
       ∧ getDependents g nodeId
         = filter (fun n => Exists (fun e => to e = filePath node ∧ from e = filePath n)
                                   (edges g)) (nodes g)).
Proof.
  split.
  - intros Hno. unfold getDependencies, getDependents.
    by rewrite (findNode_none g nodeId Hno).
  - intros l1 node l2 Hsplit Hid Hbefore.
    unfold getDependencies, getDependents.
    rewrite (findNode_first g nodeId l1 node l2 Hsplit Hid Hbefore).
    split; apply list_filter_iff; intros n; apply elem_of_targets.
Qed.

Lemma getDependencies_spec_witness :
  getDependencies Samples.chain "zz" = []
  ∧ getDependencies Samples.chain "a" = [Samples.node "b"]
  ∧ getDependents Samples.chain "a" = [Samples.node "r"].
Proof.
  destruct (getDependencies_spec Samples.chain "zz") as [Hnone _].
  destruct (getDependencies_spec Samples.chain "a") as [_ Hsome].
  split.
  - apply Hnone. intros n Hn Hid.
    repeat (apply elem_of_cons in Hn as [->|Hn]; [discriminate Hid|]).
    by apply elem_of_nil in Hn.
  - destruct (Hsome [Samples.node "r"] (Samples.node "a") [Samples.node "b"])
      as [Hd Hu]; [reflexivity|reflexivity| |].
    + intros n Hn Hid. apply list_elem_of_singleton in Hn. by subst.
    + rewrite Hd, Hu. by vm_compute.
Defined.

End Dependencies.

Section Deduplication.
Import GraphBuilder.

Lemma keepFirst_spec {A} (key : A → string) (l : list A) : ∀ seen,
  NoDup (key <$> keepFirst key seen l)
  ∧ ∀ x, x ∈ keepFirst key seen l
         ↔ ((key x ∉ seen) ∧ ∃ l1 l2, l = l1 ++ x :: l2 ∧ ∀ y, y ∈ l1 → key y ≠ key x).
Proof.
  induction l as [|h l IH]; intros seen; simpl.
  { split; [constructor|]. intros x. split; [by intros ?%elem_of_nil|].
    intros (_ & l1 & l2 & Heq & _). by destruct l1. }
  destruct (decide (key h ∈ seen)) as [Hin|Hnin].
  - rewrite bool_decide_eq_true_2 by done.
    destruct (IH seen) as [Hnd Hiff]. split; [done|].
    intros x. rewrite Hiff. split.
    + intros (Hx & l1 & l2 & -> & Hl1). split; [done|].
      exists (h :: l1), l2. split; [done|].
      intros y [->|Hy]%elem_of_cons; [congruence|by apply Hl1].
    + intros (Hx & l1 & l2 & Heq & Hl1). split; [done|].
      destruct l1 as [|h' l1]; simpl in Heq; injection Heq as -> ->; [done|].
      exists l1, l2. split; [done|]. intros y Hy. apply Hl1. by right.
  - rewrite bool_decide_eq_false_2 by done.
    destruct (IH ({[key h]} ∪ seen)) as [Hnd Hiff]. split.
    + rewrite fmap_cons. apply NoDup_cons. split; [|done].
      intros (x & Hk & Hx)%list_elem_of_fmap. apply Hiff in Hx as [Hx _]. set_solver.
    + intros x. rewrite elem_of_cons, Hiff. split.
      * intros [->|(Hx & l1 & l2 & -> & Hl1)].
        -- split; [done|]. exists [], l. split; [done|]. by intros y ?%elem_of_nil.
        -- split; [set_solver|]. exists (h :: l1), l2. split; [done|].
           intros y [->|Hy]%elem_of_cons; [set_solver|by apply Hl1].
      * intros (Hx & l1 & l2 & Heq & Hl1).
        destruct l1 as [|h' l1]; simpl in Heq; injection Heq as -> ->; [by left|].
        right. split.
        -- assert (key h' ≠ key x) by (apply Hl1; left). set_solver.
        -- exists l1, l2. split; [done|]. intros y Hy. apply Hl1. by right.
Qed.

Lemma deduplicateEdges_keepFirst es : deduplicateEdges es = keepFirst edgeKey ∅ es.
Proof.
  unfold deduplicateEdges. generalize (∅ : gset string) as seen.
  induction es as [|e es IH]; intros seen; simpl; [done|].
  by rewrite !IH.
Qed.

Lemma deduplicateNodes_keepFirst ns : deduplicateNodes ns = keepFirst id ∅ ns.
Proof.
  unfold deduplicateNodes, map_values.
  assert (Hgen : ∀ seen : NodeMap,
    snd <$> fold_left (fun seen node => if map_has (id node) seen then seen
                                        else map_set (id node) node seen) ns seen
    = (snd <$> seen) ++ keepFirst id (list_to_set (fst <$> seen)) ns).
  { induction ns as [|n ns IH]; intros seen; simpl; [by rewrite app_nil_r|].
    rewrite IH. clear IH.
    assert (Hhas : map_has (id n) seen = bool_decide (id n ∈ (list_to_set (fst <$> seen) : gset string))).
    { unfold map_has. apply eq_true_iff_eq. rewrite existsb_exists, bool_decide_eq_true.
      rewrite elem_of_list_to_set, list_elem_of_fmap. split.
      - intros (kv & Hkv & Hk). apply bool_decide_eq_true in Hk.
        exists kv. split; [done|by apply list_elem_of_In].
      - intros (kv & Hk & Hkv). exists kv. split; [by apply list_elem_of_In|].
        by apply bool_decide_eq_true. }
    rewrite Hhas. case_bool_decide as Hin; [done|].
    unfold map_set. rewrite !fmap_app. simpl. rewrite <- app_assoc. simpl.
    do 2 f_equal. rewrite list_to_set_app_L. simpl. f_equal. set_solver. }
  rewrite (Hgen []). simpl. done.
Qed.

(** What the two deduplications do: no two kept nodes share an id, no two
    kept edges share a key string, and an element is kept exactly when it
    is the first of the input with its id (its key string). *)
Lemma deduplicate_first_wins ns es :
  (NoDup (id <$> deduplicateNodes ns)
   ∧ ∀ n, n ∈ deduplicateNodes ns
          ↔ ∃ l1 l2, ns = l1 ++ n :: l2 ∧ ∀ m, m ∈ l1 → id m ≠ id n)
  ∧ (NoDup (edgeKey <$> deduplicateEdges es)
     ∧ ∀ e, e ∈ deduplicateEdges es
            ↔ ∃ l1 l2, es = l1 ++ e :: l2 ∧ ∀ e', e' ∈ l1 → edgeKey e' ≠ edgeKey e).
Proof.
  rewrite deduplicateNodes_keepFirst, deduplicateEdges_keepFirst.
  destruct (keepFirst_spec id ns ∅) as [Hn1 Hn2].
  destruct (keepFirst_spec edgeKey es ∅) as [He1 He2].
  split; (split; [done|]); intros x; [rewrite Hn2|rewrite He2]; set_solver.
Qed.

(** C7 at a failing input.  The two edges differ in their
    (from, to, kind) triples, but both print the key
    ["/w/app-core-utils-imports"], so [buildFromEntryPoints] keeps the
    first and drops the second: a triple of the input is represented by
    no edge of the output. *)
Theorem deduplicateEdges_key_collision :
  let e1 := {| from := "/w/app"; to := "core-utils"; type := imports; elabel := EmptyString |} in
  let e2 := {| from := "/w/app-core"; to := "utils"; type := imports; elabel := EmptyString |} in
  (from e1, to e1, type e1) ≠ (from e2, to e2, type e2)
  ∧ edgeKey e1 = edgeKey e2
  ∧ edges (buildFromEntryPoints [] [e1; e2] "/w" [] 0) = [e1]
  ∧ ¬ ∃ e, e ∈ edges (buildFromEntryPoints [] [e1; e2] "/w" [] 0)
           ∧ (from e, to e, type e) = (from e2, to e2, type e2).
Proof.
  intros e1 e2. split; [discriminate|]. split; [reflexivity|].
  assert (Hout : edges (buildFromEntryPoints [] [e1; e2] "/w" [] 0) = [e1])
    by (by vm_compute).
  split; [exact Hout|]. rewrite Hout.
  intros (e & He & Heq). apply list_elem_of_singleton in He. subst e.
  discriminate Heq.
Qed.

End Deduplication.

(** ** The primary entry point *)

Section PrimaryEntry.
Import EntryPointDetector.

Lemma markFound_None p eps :
  markFound p eps = None → noneMatch p eps.
Proof.
  unfold markFound.
  destruct (list_find _ eps) as [[i m]|] eqn:Hf; [done|]. intros _.
  apply list_find_None in Hf. intros x Hx.
  eapply Forall_forall in Hf; [|exact Hx]. by destruct (p x).
Qed.

Lemma markFound_Some p eps out :
  markFound p eps = Some out → FirstMarked p boost eps out.
Proof.
  unfold markFound.
  destruct (list_find _ eps) as [[i m]|] eqn:Hf; [|done].
  intros [= <-]. apply list_find_Some in Hf as (Hi & Hm & Hbefore).
  rewrite insert_take_drop by (by eapply lookup_lt_Some).
  rewrite <- (take_drop_middle eps i m Hi) at 1.
  constructor; [|done].
  intros x Hx. apply list_elem_of_lookup in Hx as [j Hj].
  pose proof (lookup_lt_Some _ _ _ Hj) as Hlt. rewrite length_take in Hlt.
  rewrite lookup_take_lt in Hj by lia.
  specialize (Hbefore j x Hj ltac:(lia)). by destruct (p x).
Qed.

Lemma FirstMarked_some p f eps out : FirstMarked p f eps out → ¬ noneMatch p eps.
Proof.
  intros [l1 m l2 _ Hm] Hnone.
  rewrite Hnone in Hm; [done|]. apply elem_of_app. right. left.
Qed.

Lemma tryPatterns_None pats eps :
  tryPatterns pats eps = None → noneOf (matchesPattern <$> pats) eps.
Proof.
  induction pats as [|pt pats IH]; simpl; intros Htry p Hp.
  - by apply elem_of_nil in Hp.
  - destruct (markFound (matchesPattern pt) eps) eqn:Hm; [done|].
    apply elem_of_cons in Hp as [->|Hp]; [by apply markFound_None|by apply IH].
Qed.

Lemma tryPatterns_Some pats eps out :
  tryPatterns pats eps = Some out → ByPriority (matchesPattern <$> pats) eps out.
Proof.
  induction pats as [|pt pats IH]; simpl; [done|].
  destruct (markFound (matchesPattern pt) eps) as [out'|] eqn:Hm.
  - intros [= <-]. exists 0, (matchesPattern pt). split; [done|].
    split; [intros j q Hj; lia|by apply markFound_Some].
  - intros Htry. destruct (IH Htry) as (k & p & Hk & Hbefore & Hmark).
    exists (S k), p. split; [done|]. split; [|done].
    intros [|j] q Hj Hq.
    + injection Hq as <-. by apply markFound_None.
    + apply (Hbefore j q); [lia|done].
Qed.

(** The chain as the code runs it, on its own four patterns. *)
Lemma markPrimaryEntryPoint_code eps :
  let ts := matchesPattern <$> reactPrimaryPatterns in
  ByPriority ts eps (markPrimaryEntryPoint eps)
  ∨ (noneOf ts eps ∧ FirstMarked isJavaMain boost eps (markPrimaryEntryPoint eps))
  ∨ (noneOf ts eps ∧ noneMatch isJavaMain eps
     ∧ ByPriority pythonEntry eps (markPrimaryEntryPoint eps))
  ∨ (noneOf ts eps ∧ noneMatch isJavaMain eps ∧ noneOf pythonEntry eps
     ∧ markPrimaryEntryPoint eps
       = match eps with [] => [] | ep :: rest => markOnly ep :: rest end).
Proof.
  intros ts. unfold markPrimaryEntryPoint.
  destruct (tryPatterns reactPrimaryPatterns eps) as [out|] eqn:Hts.
  { left. by apply tryPatterns_Some. }
  apply tryPatterns_None in Hts. right.
  destruct (markFound isJavaMain eps) as [out|] eqn:Hj.
  { left. split; [done|by apply markFound_Some]. }
  apply markFound_None in Hj. right.
  destruct (tryPatterns pythonPrimaryPatterns eps) as [out|] eqn:Hpy.
  { left. split; [done|]. split; [done|by apply tryPatterns_Some]. }
  apply tryPatterns_None in Hpy. right. done.
Qed.

End PrimaryEntry.

Section Ranking.
Import EntryPointDetector.

Lemma insertBy_elem cmp x l y : y ∈ insertBy cmp x l ↔ y = x ∨ y ∈ l.
Proof.
  induction l as [|z l IH]; simpl.
  - rewrite list_elem_of_singleton. set_solver.
  - destruct (cmp x z <=? 0)%Z.
    + by rewrite elem_of_cons.
    + rewrite !elem_of_cons, IH. tauto.
Qed.

Lemma sortBy_elem cmp l y : y ∈ sortBy cmp l ↔ y ∈ l.
Proof.
  unfold sortBy. induction l as [|z l IH]; simpl; [done|].
  rewrite insertBy_elem, elem_of_cons, IH. tauto.
Qed.

Lemma insertBy_sorted x l :
  StronglySorted scoreGe l → StronglySorted scoreGe (insertBy byScore x l).
Proof.
  induction 1 as [|y l Hl IH Hy]; simpl; [repeat constructor|].
  unfold byScore at 1. destruct (Z.leb_spec (score y - score x) 0) as [Hle|Hgt].
  - constructor; [by constructor|]. constructor; [unfold scoreGe; lia|].
    eapply Forall_impl; [exact Hy|]. unfold scoreGe. intros z Hz. lia.
  - constructor; [done|]. apply Forall_forall. intros z Hz.
    apply insertBy_elem in Hz as [->|Hz].
    + unfold scoreGe; lia.
    + eapply Forall_forall in Hy; [exact Hy|done].
Qed.

Lemma sortBy_sorted l : StronglySorted scoreGe (sortBy byScore l).
Proof.
  unfold sortBy. induction l as [|x l IH]; simpl; [constructor|].
  by apply insertBy_sorted.
Qed.

Lemma dedupFrom_elem seen l x : x ∈ dedupFrom seen l → x ∈ l.
Proof.
  revert seen. induction l as [|y l IH]; intros seen; simpl; [done|].
  destruct (bool_decide (filePath y ∈ seen)).
  - intros Hx. right. by eapply IH.
  - intros [->|Hx]%elem_of_cons; [left|right; by eapply IH].
Qed.

Lemma collect_fresh byName javaMain pythonMain x :
  x ∈ collect byName javaMain pythonMain → isPrimaryEntry x = false.
Proof.
  unfold collect. rewrite !elem_of_app. intros [Hx|[Hx|Hx]].
  - apply list_elem_of_In, in_flat_map in Hx as (f & _ & Hx).
    destruct (0 <? calculateEntryPointScore f)%Z; simpl in Hx; [|done].
    by destruct Hx as [<-|[]].
  - by apply list_elem_of_fmap in Hx as (f & -> & _).
  - by apply list_elem_of_fmap in Hx as (f & -> & _).
Qed.

Lemma rankedCandidates_fresh byName javaMain pythonMain x :
  x ∈ rankedCandidates byName javaMain pythonMain → isPrimaryEntry x = false.
Proof.
  unfold rankedCandidates, deduplicateEntryPoints. intros Hx.
  apply sortBy_elem, dedupFrom_elem in Hx. by eapply collect_fresh.
Qed.

Lemma rankedCandidates_head byName javaMain pythonMain ep rest :
  rankedCandidates byName javaMain pythonMain = ep :: rest →
  ∀ x, x ∈ ep :: rest → (score x ≤ score ep)%Z.
Proof.
  intros Heq x Hx.
  pose proof (sortBy_sorted (deduplicateEntryPoints (collect byName javaMain pythonMain))) as Hs.
  fold (rankedCandidates byName javaMain pythonMain) in Hs. rewrite Heq in Hs.
  apply StronglySorted_inv in Hs as [_ Hall].
  apply elem_of_cons in Hx as [->|Hx]; [lia|].
  eapply Forall_forall in Hall; [exact Hall|done].
Qed.

End Ranking.

(** A path that ends in [.java] matches none of the TS/JS patterns: the
    two disagree on the last character. *)
Section LastChar.
Import EntryPointDetector Regex Str.

Lemma lastChar_suffix s : ∀ u, u ∈ Str.suffixes s → u ≠ EmptyString → lastChar s = lastChar u.
Proof.
  induction s as [|c s IH]; intros u Hu Hne; simpl in Hu.
  - apply list_elem_of_singleton in Hu. by subst.
  - apply elem_of_cons in Hu as [->|Hu]; [done|].
    rewrite <- (IH u Hu Hne). destruct s; [|done].
    simpl in Hu. apply list_elem_of_singleton in Hu. by subst.
Qed.

Lemma lastChar_lower s : lastChar (Str.toLowerCase s) = Str.toLowerChar <$> lastChar s.
Proof.
  induction s as [|c s IH]; [done|]. simpl. rewrite IH. by destruct s.
Qed.

Lemma dropPrefix_lastChar p : ∀ s r,
  Str.dropPrefix p s = Some r → r ≠ EmptyString → lastChar s = lastChar r.
Proof.
  induction p as [|a p IH]; intros s r; simpl; [by intros [= ->]|].
  destruct s as [|b s]; [done|]. destruct (Ascii.eqb a b); [|done].
  intros Hd Hne. rewrite <- (IH s r Hd Hne).
  destruct s; [|done]. destruct p; simpl in Hd; [|done].
  injection Hd as <-. done.
Qed.

Lemma dropPrefix_all a s :
  match Str.dropPrefix a s with
  | Some s' => matchAll [] s'
  | None => false
  end = true → s = a.
Proof.
  revert s. induction a as [|c a IH]; intros s; simpl.
  - intros H. by apply String.eqb_eq in H.
  - destruct s as [|d s]; [done|].
    destruct (Ascii.eqb_spec c d) as [->|]; [|done].
    intros H. f_equal. by apply IH.
Qed.

Lemma tail_tsjs r :
  matchAll [Alt tsjs] r = true → lastChar r = Some "x"%char ∨ lastChar r = Some "s"%char.
Proof.
  unfold tsjs. cbn [matchAll existsb]. rewrite !orb_true_iff.
  intros [H|[H|[H|[H|H]]]]; try done;
    apply dropPrefix_all in H; subst; simpl; auto.
Qed.

Lemma matchAll_Lit l rest s :
  matchAll (Lit l :: rest) s = true →
  ∃ r, Str.dropPrefix l s = Some r ∧ matchAll rest r = true.
Proof. simpl. destruct (Str.dropPrefix l s) as [r|]; [eauto|done]. Qed.

Lemma matchAll_OneOf cs rest s :
  matchAll (OneOf cs :: rest) s = true →
  ∃ c r, s = String c r ∧ matchAll rest r = true.
Proof.
  simpl. destruct s as [|c r]; [done|].
  intros [_ H]%andb_true_iff. eauto.
Qed.

Lemma nonempty_of_lastChar r c : lastChar r = Some c → r ≠ EmptyString.
Proof. by destruct r. Qed.

Lemma lastChar_cons c r : r ≠ EmptyString → lastChar (String c r) = lastChar r.
Proof. by destruct r. Qed.

Lemma react_pattern_tail k u :
  k < 4 → matchAll (pat k) u = true →
  lastChar u = Some "x"%char ∨ lastChar u = Some "s"%char.
Proof.
  intros Hk Hm.
  assert (Hcases : k = 0 ∨ k = 1 ∨ k = 2 ∨ k = 3) by lia.
  destruct Hcases as [-> | [-> | [-> | ->]]]; unfold pat in Hm; simpl nth in Hm.
  1,2: apply matchAll_OneOf in Hm as (c1 & r1 & -> & Hm);
       apply matchAll_Lit in Hm as (r2 & H2 & Hm);
       apply matchAll_OneOf in Hm as (c2 & r3 & -> & Hm);
       apply matchAll_Lit in Hm as (r4 & H4 & Hm);
       pose proof (tail_tsjs r4 Hm) as Ht;
       assert (Hne : r4 ≠ EmptyString) by (destruct Ht as [Ht|Ht]; by eapply nonempty_of_lastChar);
       pose proof (dropPrefix_lastChar _ _ _ H4 Hne) as E4;
       assert (Hne3 : r3 ≠ EmptyString) by (destruct r3; [by destruct Ht|done]);
       pose proof (dropPrefix_lastChar _ _ _ H2 ltac:(done)) as E2;
       rewrite lastChar_cons by (by destruct r1);
       rewrite E2, lastChar_cons, E4 by done; exact Ht.
  1,2: apply matchAll_OneOf in Hm as (c1 & r1 & -> & Hm);
       apply matchAll_Lit in Hm as (r4 & H4 & Hm);
       pose proof (tail_tsjs r4 Hm) as Ht;
       assert (Hne : r4 ≠ EmptyString) by (destruct Ht as [Ht|Ht]; by eapply nonempty_of_lastChar);
       pose proof (dropPrefix_lastChar _ _ _ H4 Hne) as E4;
       assert (Hne1 : r1 ≠ EmptyString) by (destruct r1; [by destruct Ht|done]);
       rewrite lastChar_cons, E4 by done; exact Ht.
Qed.

Lemma endsWith_lastChar s c suffix :
  Str.endsWith s suffix = true → lastChar suffix = Some c → lastChar s = Some c.
Proof.
  unfold Str.endsWith. intros H Hc.
  apply existsb_exists in H as (u & Hu & Heq). apply String.eqb_eq in Heq. subst u.
  rewrite (lastChar_suffix s suffix); [done|by apply list_elem_of_In|].
  by eapply nonempty_of_lastChar.
Qed.

Lemma java_not_tsjs k ep :
  k < 4 → matchesPattern (pat k) ep = true → isJavaMain ep = false.
Proof.
  intros Hk Hm. unfold isJavaMain.
  destruct (Str.endsWith (filePath ep) ".java") eqn:Hj; [|by rewrite andb_false_r].
  exfalso.
  pose proof (endsWith_lastChar _ "a"%char _ Hj eq_refl) as Hlast.
  unfold matchesPattern, test_i in Hm.
  apply existsb_exists in Hm as (u & Hu & Hm).
  pose proof (react_pattern_tail k u Hk Hm) as Ht.
  assert (Hne : u ≠ EmptyString) by (destruct Ht; by eapply nonempty_of_lastChar).
  apply list_elem_of_In in Hu.
  rewrite <- (lastChar_suffix _ u Hu Hne), lastChar_lower, Hlast in Ht.
  by destruct Ht.
Qed.

End LastChar.

Section PrimaryChainClaim.
Import EntryPointDetector.

Lemma FirstMarked_agree p q f eps out :
  (∀ x, x ∈ eps → p x = q x) → FirstMarked p f eps out → FirstMarked q f eps out.
Proof.
  intros Hpq Hfm. revert Hpq. destruct Hfm as [l1 m l2 Hnone Hm]. intros Hpq.
  constructor.
  - intros x Hx. rewrite <- Hpq; [by apply Hnone|]. apply elem_of_app. by left.
  - rewrite <- Hpq; [done|]. apply elem_of_app. right. left.
Qed.

Lemma rootLevel_agree root eps k :
  NoNestedIndex root eps →
  noneMatch (matchesPattern (pat 0)) eps → noneMatch (matchesPattern (pat 1)) eps →
  (k = 2 ∨ (k = 3 ∧ noneMatch (matchesPattern (pat 2)) eps)) →
  ∀ x, x ∈ eps →
    matchesPattern (pat k) x = rootLevel root (filePath x) && matchesPattern (pat k) x.
Proof.
  intros Hnn H0 H1 Hk x Hx.
  destruct (matchesPattern (pat k) x) eqn:Hm; [|by rewrite andb_false_r].
  specialize (Hnn x Hx). rewrite (H0 x Hx), (H1 x Hx) in Hnn. simpl in Hnn.
  rewrite Hnn; [done|].
  destruct Hk as [->|[-> _]]; rewrite Hm; by rewrite ?orb_true_r.
Qed.

Lemma noneOf_tsjs root eps :
  noneOf (matchesPattern <$> reactPrimaryPatterns) eps → noneOf (tsjsEntry root) eps.
Proof.
  intros Hnone p Hp x Hx.
  assert (H0 := Hnone (matchesPattern (pat 0)) ltac:(set_solver) x Hx).
  assert (H1 := Hnone (matchesPattern (pat 1)) ltac:(set_solver) x Hx).
  assert (H2 := Hnone (matchesPattern (pat 2)) ltac:(set_solver) x Hx).
  assert (H3 := Hnone (matchesPattern (pat 3)) ltac:(set_solver) x Hx).
  unfold tsjsEntry in Hp.
  repeat (apply elem_of_cons in Hp as [->|Hp]; [by rewrite ?H2, ?H3, ?andb_false_r|]).
  by apply elem_of_nil in Hp.
Qed.

Lemma ByPriority_tsjs root eps out :
  NoNestedIndex root eps →
  ByPriority (matchesPattern <$> reactPrimaryPatterns) eps out →
  ByPriority (tsjsEntry root) eps out.
Proof.
  intros Hnn (k & p & Hk & Hbefore & Hmark).
  assert (Hlt : k < 4) by (apply lookup_lt_Some in Hk; exact Hk).
  assert (Hcases : k = 0 ∨ k = 1 ∨ k = 2 ∨ k = 3) by lia.
  destruct Hcases as [-> | [-> | [-> | ->]]]; injection Hk as <-.
  - exists 0, (matchesPattern (pat 0)). split; [done|]. split; [intros; lia|done].
  - exists 1, (matchesPattern (pat 1)). split; [done|]. split; [|done].
    intros [|j] q Hj Hq; [|lia]. injection Hq as <-. by apply (Hbefore 0).
  - assert (H0 := Hbefore 0 (matchesPattern (pat 0)) ltac:(lia) eq_refl).
    assert (H1 := Hbefore 1 (matchesPattern (pat 1)) ltac:(lia) eq_refl).
    exists 2, (fun ep => rootLevel root (filePath ep) && matchesPattern (pat 2) ep).
    split; [done|]. split.
    + intros [|[|j]] q Hj Hq; [| |lia]; by injection Hq as <-.
    + eapply FirstMarked_agree; [|exact Hmark].
      apply (rootLevel_agree root eps 2); auto.
  - assert (H0 := Hbefore 0 (matchesPattern (pat 0)) ltac:(lia) eq_refl).
    assert (H1 := Hbefore 1 (matchesPattern (pat 1)) ltac:(lia) eq_refl).
    assert (H2 := Hbefore 2 (matchesPattern (pat 2)) ltac:(lia) eq_refl).
    exists 3, (fun ep => rootLevel root (filePath ep) && matchesPattern (pat 3) ep).
    split; [done|]. split.
    + intros [|[|[|j]]] q Hj Hq; [| | |lia]; injection Hq as <-; try done.
      intros x Hx. by rewrite (H2 x Hx), andb_false_r.
    + eapply FirstMarked_agree; [|exact Hmark].
      apply (rootLevel_agree root eps 3); auto.
Qed.


End PrimaryChainClaim.

Section PrimaryChainChecks.
Import EntryPointDetector.

Local Ltac each_candidate H :=
  vm_compute in H;
  repeat (apply elem_of_cons in H as [->|H]; [vm_compute; try reflexivity|]);
  try (by apply elem_of_nil in H).



End PrimaryChainChecks.

(** ** Resolution order of relative imports *)

Section ResolveOrder.
Import ImportAnalyzer.
Context `{PathModule}.
Variable fs : gset string.

Lemma tryExtensions_find resolvedPath exts :
  match tryExtensions fs resolvedPath exts with
  | Some testPath => Some testPath
  | None => if fileExists fs resolvedPath then Some resolvedPath else None
  end
  = snd <$> list_find (fun c => c ∈ fs)
                      (((fun ext => resolvedPath +:+ ext) <$> exts) ++ [resolvedPath]).
Proof.
  induction exts as [|x exts IH]; simpl; unfold fileExists in *.
  - destruct (decide (resolvedPath ∈ fs)).
    + by rewrite bool_decide_eq_true_2.
    + by rewrite bool_decide_eq_false_2.
  - destruct (decide (resolvedPath +:+ x ∈ fs)).
    + by rewrite bool_decide_eq_true_2.
    + rewrite bool_decide_eq_false_2 by done. rewrite IH.
      by destruct (list_find _ _) as [[? ?]|].
Qed.

(** C5, as the code has it.  A specifier that starts with neither [.]
    nor [/] resolves to null.  For a relative specifier the candidates are,
    in this order: the resolved path with each of .ts .tsx .js .jsx .java
    appended, then with each of /index.ts /index.tsx /index.js /index.jsx
    appended, and last the resolved path itself.  The result is the first
    candidate that exists, and null when none exists. *)
Theorem resolveImportPath_order (sourceFile importSource workspaceRoot : string) :
  let resolvedPath := resolve (dirname sourceFile) importSource in
  let candidates :=
    ((fun ext => resolvedPath +:+ ext)
       <$> [".ts"; ".tsx"; ".js"; ".jsx"; ".java";
            "/index.ts"; "/index.tsx"; "/index.js"; "/index.jsx"])
    ++ [resolvedPath] in
  (Str.startsWith importSource "." = false → Str.startsWith importSource "/" = false →
     resolveImportPath fs sourceFile importSource workspaceRoot = None)
  ∧ (Str.startsWith importSource "." = true ∨ Str.startsWith importSource "/" = true →
     ((∀ c, c ∈ candidates → c ∉ fs) →
        resolveImportPath fs sourceFile importSource workspaceRoot = None)
     ∧ (∀ l1 c l2, candidates = l1 ++ c :: l2 → (∀ x, x ∈ l1 → x ∉ fs) → c ∈ fs →
          resolveImportPath fs sourceFile importSource workspaceRoot = Some c)).
Proof.
  intros resolvedPath candidates. unfold resolveImportPath. split.
  { intros -> ->. done. }
  intros Hrel.
  assert (Hguard : negb (Str.startsWith importSource ".")
                   && negb (Str.startsWith importSource "/") = false).
  { destruct Hrel as [-> | ->]; [done|by rewrite andb_false_r]. }
  rewrite Hguard. fold resolvedPath.
  rewrite (tryExtensions_find resolvedPath extensions).
  change (((fun ext => resolvedPath +:+ ext) <$> extensions) ++ [resolvedPath])
    with candidates.
  split.
  - intros Hnone.
    assert (Hf : list_find (fun c => c ∈ fs) candidates = None)
      by (apply list_find_None, Forall_forall; exact Hnone).
    by rewrite Hf.
  - intros l1 c l2 Hsplit Hbefore Hc.
    assert (Hf : list_find (fun c => c ∈ fs) candidates = Some (length l1, c)).
    { apply list_find_Some. rewrite Hsplit. split; [|split; [done|]].
      - by apply list_lookup_middle.
      - intros j y Hj Hlt. apply Hbefore.
        rewrite lookup_app_l in Hj by done. by eapply list_elem_of_lookup_2. }
    by rewrite Hf.
Qed.

End ResolveOrder.

Section ResolveChecks.
Import ImportAnalyzer PosixPath.

Lemma resolveImportPath_order_witness :
  resolveImportPath {["/w/src/util/index.ts"]} "/w/src/App.tsx" "./util" "/w"
    = Some "/w/src/util/index.ts"
  ∧ resolveImportPath {["/w/src/util/index.ts"]} "/w/src/App.tsx" "react" "/w" = None
  ∧ resolveImportPath ∅ "/w/src/App.tsx" "./util" "/w" = None.
Proof.
  split; [|split].
  - destruct (resolveImportPath_order {["/w/src/util/index.ts"]}
                "/w/src/App.tsx" "./util" "/w") as [_ Hrel].
    destruct (Hrel (or_introl eq_refl)) as [_ Hfirst].
    apply (Hfirst ((fun ext => "/w/src/util" +:+ ext) <$> [".ts"; ".tsx"; ".js"; ".jsx"; ".java"])
                  "/w/src/util/index.ts"
                  (((fun ext => "/w/src/util" +:+ ext) <$> ["/index.tsx"; "/index.js"; "/index.jsx"])
                   ++ ["/w/src/util"])).
    + by vm_compute.
    + intros x Hx. vm_compute in Hx.
      repeat (apply elem_of_cons in Hx as [->|Hx]; [set_solver|]).
      by apply elem_of_nil in Hx.
    + set_solver.
  - destruct (resolveImportPath_order {["/w/src/util/index.ts"]}
                "/w/src/App.tsx" "react" "/w") as [Hext _].
    by apply Hext.
  - destruct (resolveImportPath_order ∅ "/w/src/App.tsx" "./util" "/w") as [_ Hrel].
    destruct (Hrel (or_introl eq_refl)) as [Hnone _].
    apply Hnone. set_solver.
Defined.

(** C5 as stated fails on the order and on the index files.
    (a) [./theme.css] is imported from [/w/src/App.tsx]; the literal path
    [/w/src/theme.css] exists, and so does [/w/src/theme.css.ts]: the
    result is the suffixed path, the literal path being tried last.
    (b) Only [/w/src/util/index.java] exists: [./util] resolves to null,
    there being no [/index.java] candidate. *)
Lemma resolveImportPath_literal_last :
  (resolve (dirname "/w/src/App.tsx") "./theme.css" = "/w/src/theme.css"
   ∧ "/w/src/theme.css" ∈ ({["/w/src/theme.css"; "/w/src/theme.css.ts"]} : gset string)
   ∧ resolveImportPath {["/w/src/theme.css"; "/w/src/theme.css.ts"]}
       "/w/src/App.tsx" "./theme.css" "/w"
     = Some "/w/src/theme.css.ts")
  ∧ (resolve (dirname "/w/src/Main.java") "./util" +:+ "/index.java" = "/w/src/util/index.java"
     ∧ resolveImportPath {["/w/src/util/index.java"]} "/w/src/Main.java" "./util" "/w" = None).
Proof.
  split; [split; [by vm_compute|split; [set_solver|by vm_compute]]|].
  split; by vm_compute.
Qed.

End ResolveChecks.

(** ** The parsers: containment edges, failures, plain functions *)

Section Effects.
Import Eff.

Lemma bind_returns {A B} (m : M A) (k : A → M B) c c' b :
  (m ≫= k) c = (c', inr b) → ∃ a c1, m c = (c1, inr a) ∧ k a c1 = (c', inr b).
Proof.
  unfold mbind, M_bind. destruct (m c) as [c1 [e|a]]; [done|]. eauto.
Qed.

Lemma call_returns {A} (r : Error + A) c c' a :
  call r c = (c', inr a) → r = inr a ∧ c' = c.
Proof. unfold call. by intros [= -> ->]. Qed.

Lemma ret_returns {A} (a a' : A) c c' :
  mret (M := M) a c = (c', inr a') → a' = a ∧ c' = c.
Proof. unfold mret, M_ret. by intros [= -> ->]. Qed.

(** A [try] block whose handler logs and returns: the call returns
    whatever the body does. *)
Lemma tryCatch_total {A} (body : M A) (line : Error → string) (fallback : A) c :
  match body c with
  | (c', inr a) =>
      tryCatch body (fun e => console_error (line e);; mret fallback) c = (c', inr a)
  | (c', inl e) =>
      tryCatch body (fun e => console_error (line e);; mret fallback) c
      = (c' ++ [line e], inr fallback)
  end.
Proof. unfold tryCatch. by destruct (body c) as [c' [e|a]]. Qed.

End Effects.

Section StringFacts.

Lemma append_cons c s t : String c s +:+ t = String c (s +:+ t).
Proof. reflexivity. Qed.

Lemma append_length s t : String.length (s +:+ t) = String.length s + String.length t.
Proof.
  induction s as [|c s IH]; [done|]. rewrite append_cons. simpl. by rewrite IH.
Qed.

(** A path is never one of the entity keys built from it. *)
Lemma path_not_key (fsPath tag rest : string) :
  tag ≠ EmptyString → fsPath ≠ fsPath +:+ tag +:+ rest.
Proof.
  intros Htag Heq. apply (f_equal String.length) in Heq.
  rewrite !append_length in Heq. destruct tag; [done|]. simpl in Heq. lia.
Qed.

End StringFacts.

Section JavaContainment.
Import Eff Parser JavaParser.
Context `{Scanner}.
Variable fsPath : string.
Variable lines : list string.

Lemma classStep_returns acc cls c c' r :
  classStep fsPath lines acc cls c = (c', inr r) →
  ∃ ms, parseMethods lines (startLine cls) (endLine cls) (name cls) = inr ms
        ∧ c' = c
        ∧ nodes r = nodes acc ++ createClassNode cls fsPath
                      :: ((fun m => createMethodNode m fsPath) <$> ms)
        ∧ edges r = edges acc ++ (containsEdge fsPath cls <$> ms)
                      ++ match extendsClass cls with
                         | Some sup => [extendsEdge fsPath sup]
                         | None => []
                         end
                      ++ (implementsEdge fsPath <$> implementsInterfaces cls).
Proof.
  unfold classStep. intros (ms & c1 & Hcall & Hret)%bind_returns.
  apply call_returns in Hcall as [Hms ->]. apply ret_returns in Hret as [-> ->].
  by exists ms.
Qed.

Lemma class_edges_from_path cls ms e :
  e ∈ (containsEdge fsPath cls <$> ms)
      ++ match extendsClass cls with
         | Some sup => [extendsEdge fsPath sup]
         | None => []
         end
      ++ (implementsEdge fsPath <$> implementsInterfaces cls) →
  from e = fsPath.
Proof.
  rewrite !elem_of_app. intros [He|[He|He]].
  - by apply list_elem_of_fmap in He as (m & -> & _).
  - destruct (extendsClass cls); [|by apply elem_of_nil in He].
    apply list_elem_of_singleton in He. by subst.
  - by apply list_elem_of_fmap in He as (i & -> & _).
Qed.

Lemma forEach_classStep classes : ∀ acc c c' r,
  forEach (classStep fsPath lines) classes acc c = (c', inr r) →
  c' = c
  ∧ (∀ e, e ∈ edges r → e ∈ edges acc ∨ from e = fsPath)
  ∧ (∀ e, e ∈ edges acc → e ∈ edges r)
  ∧ (∀ cls ms m, cls ∈ classes →
       parseMethods lines (startLine cls) (endLine cls) (name cls) = inr ms → m ∈ ms →
       containsEdge fsPath cls m ∈ edges r).
Proof.
  induction classes as [|cls classes IH]; intros acc c c' r; simpl.
  - intros [-> ->]%ret_returns. split; [done|]. split; [auto|]. split; [auto|].
    intros cls ms m Hin. by apply elem_of_nil in Hin.
  - intros (r1 & c1 & Hstep & Hrest)%bind_returns.
    apply classStep_returns in Hstep as (ms1 & Hms1 & -> & Hn1 & He1).
    apply IH in Hrest as (-> & Hfrom & Hkeep & Hcontains).
    split; [done|]. split; [|split].
    + intros e He. destruct (Hfrom e He) as [Hin|Hp]; [|by right].
      rewrite He1 in Hin. apply elem_of_app in Hin as [Hin|Hin]; [by left|right].
      by eapply class_edges_from_path.
    + intros e He. apply Hkeep. rewrite He1. apply elem_of_app. by left.
    + intros cls' ms m Hcls Hms Hm. apply elem_of_cons in Hcls as [->|Hcls].
      * apply Hkeep. rewrite He1, Hms1 in *. injection Hms as <-.
        apply elem_of_app. right. apply elem_of_app. left.
        by apply list_elem_of_fmap_2.
      * by eapply Hcontains.
Qed.

Lemma forEach_interfaceStep interfaces : ∀ acc c c' r,
  forEach (interfaceStep fsPath) interfaces acc c = (c', inr r) →
  c' = c
  ∧ (∀ e, e ∈ edges r → e ∈ edges acc ∨ from e = fsPath)
  ∧ (∀ e, e ∈ edges acc → e ∈ edges r).
Proof.
  induction interfaces as [|i interfaces IH]; intros acc c c' r; simpl.
  - intros [-> ->]%ret_returns. auto.
  - intros (r1 & c1 & Hstep & Hrest)%bind_returns.
    unfold interfaceStep in Hstep. apply ret_returns in Hstep as [-> ->].
    apply IH in Hrest as (-> & Hfrom & Hkeep). simpl in *.
    split; [done|]. split.
    + intros e He. destruct (Hfrom e He) as [Hin|Hp]; [|by right].
      apply elem_of_app in Hin as [Hin|Hin]; [by left|right].
      by apply list_elem_of_fmap in Hin as (x & -> & _).
    + intros e He. apply Hkeep, elem_of_app. by left.
Qed.

End JavaContainment.

Section ContainmentClaim.
Import Eff Parser.

Lemma java_parse_of_body `{JavaParser.Scanner} fsPath content isEntryPoint c c' r :
  JavaParser.parseBody fsPath content isEntryPoint c = (c', inr r) →
  JavaParser.parse (inr content) fsPath isEntryPoint c = (c', inr r).
Proof.
  intros Hbody. unfold JavaParser.parse, mbind, M_bind, call. simpl.
  unfold tryCatch. by rewrite Hbody.
Qed.

Lemma python_parse_of_body `{PythonParser.Scanner} fsPath content isEntryPoint c c' r :
  PythonParser.parseBody fsPath content isEntryPoint c = (c', inr r) →
  PythonParser.parse (inr content) fsPath isEntryPoint c = (c', inr r).
Proof.
  intros Hbody. unfold PythonParser.parse, mbind, M_bind, call. simpl.
  unfold tryCatch. by rewrite Hbody.
Qed.

Lemma java_body_edges `{JavaParser.Scanner} fsPath content isEntryPoint c c' r :
  JavaParser.parseBody fsPath content isEntryPoint c = (c', inr r) →
  (∀ e, e ∈ edges r → from e = fsPath)
  ∧ (∀ classes cls ms m,
       JavaParser.parseClasses (Str.split "010" content) = inr classes → cls ∈ classes →
       JavaParser.parseMethods (Str.split "010" content) (JavaParser.startLine cls)
         (JavaParser.endLine cls) (JavaParser.name cls) = inr ms →
       m ∈ ms →
       JavaParser.containsEdge fsPath cls m ∈ edges r).
Proof.
  unfold JavaParser.parseBody.
  intros (classes & c1 & Hcls & Hrest)%bind_returns.
  apply call_returns in Hcls as [Hcls ->].
  apply bind_returns in Hrest as (r1 & c2 & Hloop1 & Hrest).
  apply forEach_classStep in Hloop1 as (-> & Hfrom1 & _ & Hcontains).
  apply bind_returns in Hrest as (ifaces & c3 & Hif & Hrest).
  apply call_returns in Hif as [Hif ->].
  apply bind_returns in Hrest as (r2 & c4 & Hloop2 & Hrest).
  apply forEach_interfaceStep in Hloop2 as (-> & Hfrom2 & Hkeep2).
  apply bind_returns in Hrest as (found & c5 & Himp & Hret).
  apply call_returns in Himp as [Himp ->].
  apply ret_returns in Hret as [-> ->]. simpl. split.
  - intros e [He|He]%elem_of_app.
    + destruct (Hfrom2 e He) as [He1|Hp]; [|done].
      destruct (Hfrom1 e He1) as [He0|Hp]; [|done]. by apply elem_of_nil in He0.
    + by apply list_elem_of_fmap in He as (x & -> & _).
  - intros classes' cls ms m Hcls' Hin Hms Hm.
    rewrite Hcls in Hcls'. injection Hcls' as <-.
    apply elem_of_app. left. apply Hkeep2. by eapply Hcontains.
Qed.

Lemma python_body_edges `{PythonParser.Scanner} fsPath content isEntryPoint c c' r :
  PythonParser.parseBody fsPath content isEntryPoint c = (c', inr r) →
  (∀ e, e ∈ edges r → from e = fsPath)
  ∧ (∀ classes cls m,
       PythonParser.parseClasses (Str.split "010" content) = inr classes → cls ∈ classes →
       m ∈ PythonParser.methods cls →
       PythonParser.containsEdge fsPath cls m ∈ edges r).
Proof.
  unfold PythonParser.parseBody.
  intros (classes & c1 & Hcls & Hrest)%bind_returns.
  apply call_returns in Hcls as [Hcls ->].
  apply bind_returns in Hrest as (funcs & c2 & Hf & Hrest).
  apply call_returns in Hf as [Hf ->].
  apply bind_returns in Hrest as (found & c3 & Himp & Hret).
  apply call_returns in Himp as [Himp ->].
  apply ret_returns in Hret as [-> ->]. simpl. split.
  - intros e [He|He]%elem_of_app.
    + apply list_elem_of_In, in_flat_map in He as (cls & _ & He).
      apply list_elem_of_In in He. simpl in He.
      apply elem_of_app in He as [He|He];
        by apply list_elem_of_fmap in He as (x & -> & _).
    + apply list_elem_of_fmap in He as (x & -> & _). by destruct x.
  - intros classes' cls m Hcls' Hin Hm.
    rewrite Hcls in Hcls'. injection Hcls' as <-.
    apply elem_of_app. left. apply list_elem_of_In, in_flat_map.
    exists cls. split; [by apply list_elem_of_In|].
    apply list_elem_of_In. simpl. apply elem_of_app. left.
    by apply list_elem_of_fmap_2.
Qed.


End ContainmentClaim.

Section ContainmentChecks.
Import Eff Parser SourceSamples.



End ContainmentChecks.

Section Failures.
Import Eff Parser.

(** C6.  Whatever the text of the file and whatever the scanners and the
    Babel parser do with it (return or throw), each of the three [parse]
    operations returns a result; it is the result of the body of its
    [try] block when that returns, and the empty node and edge lists when
    that throws. *)
Theorem parse_never_throws
    `{JavaParser.Scanner} `{PythonParser.Scanner} `{ReactParser.Babel}
    (fsPath content : string) (isEntryPoint : bool) (c : Console) :
  (∃ c' r, JavaParser.parse (inr content) fsPath isEntryPoint c = (c', inr r)
           ∧ match JavaParser.parseBody fsPath content isEntryPoint c with
             | (_, inr r') => r = r'
             | (_, inl _) => r = {| nodes := []; edges := [] |}
             end)
  ∧ (∃ c' r, PythonParser.parse (inr content) fsPath isEntryPoint c = (c', inr r)
             ∧ match PythonParser.parseBody fsPath content isEntryPoint c with
               | (_, inr r') => r = r'
               | (_, inl _) => r = {| nodes := []; edges := [] |}
               end)
  ∧ (∃ c' r, ReactParser.parse (inr content) fsPath isEntryPoint c = (c', inr r)
             ∧ match ReactParser.parseBody fsPath content isEntryPoint c with
               | (_, inr r') => r = r'
               | (_, inl _) => r = {| nodes := []; edges := [] |}
               end).
Proof.
  split; [|split].
  - unfold JavaParser.parse.
    change ((call (inr content) ≫= _) c) with
      (tryCatch (JavaParser.parseBody fsPath content isEntryPoint)
         (fun error => console_error ("Failed to parse Java file " +:+ fsPath +:+ ": "
                                      +:+ message error);; mret Parser.empty) c).
    pose proof (tryCatch_total (JavaParser.parseBody fsPath content isEntryPoint)
                  (fun error => "Failed to parse Java file " +:+ fsPath +:+ ": "
                                +:+ message error) Parser.empty c) as Ht.
    destruct (JavaParser.parseBody fsPath content isEntryPoint c) as [c' [e|r]]; eauto.
  - unfold PythonParser.parse.
    change ((call (inr content) ≫= _) c) with
      (tryCatch (PythonParser.parseBody fsPath content isEntryPoint)
         (fun error => console_error ("Failed to parse Python file " +:+ fsPath +:+ ": "
                                      +:+ message error);; mret Parser.empty) c).
    pose proof (tryCatch_total (PythonParser.parseBody fsPath content isEntryPoint)
                  (fun error => "Failed to parse Python file " +:+ fsPath +:+ ": "
                                +:+ message error) Parser.empty c) as Ht.
    destruct (PythonParser.parseBody fsPath content isEntryPoint c) as [c' [e|r]]; eauto.
  - unfold ReactParser.parse.
    change ((call (inr content) ≫= _) c) with
      (tryCatch (ReactParser.parseBody fsPath content isEntryPoint)
         (fun error => console_error ("Failed to parse " +:+ fsPath +:+ ": "
                                      +:+ message error);; mret Parser.empty) c).
    pose proof (tryCatch_total (ReactParser.parseBody fsPath content isEntryPoint)
                  (fun error => "Failed to parse " +:+ fsPath +:+ ": "
                                +:+ message error) Parser.empty c) as Ht.
    destruct (ReactParser.parseBody fsPath content isEntryPoint c) as [c' [e|r]]; eauto.
Qed.

(** The text itself is read outside the [try] block: when the document
    cannot be opened, [parse] does throw. *)
Lemma parse_rethrows_open_failure `{ReactParser.Babel} fsPath isEntryPoint c e :
  ReactParser.parse (inl e) fsPath isEntryPoint c = (c, inl e).
Proof. reflexivity. Qed.

(** A malformed file: Babel throws, the parser logs and returns nothing. *)
Lemma parse_malformed_react :
  @ReactParser.parse SourceSamples.babel (inr "const = ;") "/w/src/bad.ts" false []
  = (["Failed to parse /w/src/bad.ts: SyntaxError: Unexpected token"],
     inr {| nodes := []; edges := [] |}).
Proof. by vm_compute. Qed.

End Failures.

Section PlainFunctions.
Import Eff Parser ReactParser.

(** C9 on the code.  A variable bound to an arrow function or a function
    expression that is not a component yields no node at all, so no node
    of kind function; the same function written as a declaration yields
    a function node. *)
Theorem plain_function_variable_yields_no_node
    (fsPath : string) (name : option string) (init : Ast) (loc : Loc) :
  match init with
  | ArrowFunctionExpression _ _ | FunctionExpression _ _ _ => True
  | _ => False
  end →
  isReactComponent init = false →
  visit fsPath (VariableDeclarator name (Some init) loc) = []
  ∧ ∀ params body, isReactComponent (FunctionDeclaration name params body loc) = false →
      visit fsPath (FunctionDeclaration name params body loc)
      = [createFunctionNode name loc fsPath].
Proof.
  intros Hfun Hplain. split.
  - destruct init; try done; simpl; by rewrite Hplain.
  - intros params body Hdecl. simpl visit. by rewrite Hdecl.
Qed.

Lemma plain_function_variable_yields_no_node_witness :
  visit "/w/src/math.ts"
    (VariableDeclarator (Some "add")
       (Some (ArrowFunctionExpression [Identifier "a"; Identifier "b"]
                (Other [Identifier "a"; Identifier "b"])))
       (Some (1, 1))) = []
  ∧ @parse SourceSamples.babel (inr SourceSamples.mathTs) "/w/src/math.ts" false []
    = ([], inr {| nodes := []; edges := [] |})
  ∧ kind <$> traverse "/w/src/math.ts" SourceSamples.addDeclared = [KFunction].
Proof.
  split; [|split; by vm_compute].
  apply (plain_function_variable_yields_no_node "/w/src/math.ts" (Some "add")
           (ArrowFunctionExpression [Identifier "a"; Identifier "b"]
              (Other [Identifier "a"; Identifier "b"]))
           (Some (1, 1))); [exact I|reflexivity].
Defined.

End PlainFunctions.

(* ===================================================================== *)
(** * Part III.  Further properties of the code                           *)
(* ===================================================================== *)

(** ** Graph assembly *)

Section Assembly.
Import GraphBuilder GraphBuilderMore.

Lemma keepFirst_fixed {A} (key : A → string) (l : list A) : ∀ seen,
  NoDup (key <$> l) → (∀ x, x ∈ l → key x ∉ seen) → keepFirst key seen l = l.
Proof.
  induction l as [|h l IH]; intros seen Hnd Hfresh; simpl; [done|].
  rewrite fmap_cons in Hnd. apply NoDup_cons in Hnd as [Hh Hnd].
  rewrite bool_decide_eq_false_2 by (apply Hfresh; left). f_equal.
  apply IH; [done|]. intros x Hx Hin.
  apply elem_of_union in Hin as [Hin|Hin].
  - apply elem_of_singleton in Hin. apply Hh. rewrite <- Hin.
    by apply list_elem_of_fmap_2.
  - revert Hin. apply Hfresh. by right.
Qed.

Lemma keepFirst_idempotent {A} (key : A → string) (l : list A) :
  keepFirst key ∅ (keepFirst key ∅ l) = keepFirst key ∅ l.
Proof.
  apply keepFirst_fixed; [apply keepFirst_spec|]. intros x _. set_solver.
Qed.

(** X1.  Assembling a graph from the nodes and edges of an assembled
    graph changes nothing: [buildFromEntryPoints] is idempotent (node
    list, edge list and metadata), and so is [build]. *)
Theorem buildFromEntryPoints_idempotent (ns : list CodeNode) (es : list CodeEdge)
    (root : string) (entryPointFiles : list string) (now : Z) :
  let g := buildFromEntryPoints ns es root entryPointFiles now in
  let g' := build ns es root now in
  buildFromEntryPoints (nodes g) (edges g) root entryPointFiles now = g
  ∧ build (nodes g') (edges g') root now = g'.
Proof.
  intros g g'. unfold g, g', buildFromEntryPoints, build. simpl.
  rewrite !deduplicateNodes_keepFirst, !deduplicateEdges_keepFirst.
  by rewrite !keepFirst_idempotent.
Qed.

Lemma distinct_elem {A} `{EqDecision A} (xs : list A) (x : A) :
  x ∈ distinct xs ↔ x ∈ xs.
Proof.
  induction xs as [|y xs IH]; simpl; [done|].
  rewrite !elem_of_cons, list_elem_of_filter, IH.
  destruct (decide (x = y)); naive_solver.
Qed.

Lemma distinct_NoDup {A} `{EqDecision A} (xs : list A) : NoDup (distinct xs).
Proof.
  induction xs as [|y xs IH]; simpl; [constructor|].
  apply NoDup_cons. split.
  - intros [Hne _]%list_elem_of_filter. done.
  - by apply NoDup_filter.
Qed.

Lemma distinct_length {A} `{EqDecision A} (xs : list A) :
  length (distinct xs) ≤ length xs.
Proof.
  induction xs as [|y xs IH]; simpl; [done|].
  pose proof (length_filter (fun z => z ≠ y) (distinct xs)). lia.
Qed.

(** X2.  The metadata of an assembled graph: [totalNodes] is the length
    of the node list; [totalFiles] is the number of distinct file paths
    among the nodes, so it is at most [totalNodes] and at least 1 when
    there is a node; [languages] lists each language of a node once. *)
Theorem buildFromEntryPoints_metadata (ns : list CodeNode) (es : list CodeEdge)
    (root : string) (entryPointFiles : list string) (now : Z) :
  let g := buildFromEntryPoints ns es root entryPointFiles now in
  totalNodes (metadata g) = length (nodes g)
  ∧ totalFiles (metadata g) = size (list_to_set (filePath <$> nodes g) : gset string)
  ∧ totalFiles (metadata g) ≤ totalNodes (metadata g)
  ∧ (nodes g ≠ [] → 1 ≤ totalFiles (metadata g))
  ∧ NoDup (languages (metadata g))
  ∧ (∀ l, l ∈ languages (metadata g) ↔ ∃ n, n ∈ nodes g ∧ language n = l)
  ∧ entryPoints (metadata g) = Some entryPointFiles
  ∧ rootPath (metadata g) = root.
Proof.
  intros g. unfold g, buildFromEntryPoints. simpl.
  set (us := deduplicateNodes ns).
  split; [done|]. split; [|split; [|split; [|split; [|split]]]].
  - rewrite <- (size_list_to_set (C := gset string) _ (distinct_NoDup (filePath <$> us))).
    f_equal. apply set_eq. intros x.
    by rewrite !elem_of_list_to_set, distinct_elem.
  - etrans; [apply distinct_length|]. by rewrite length_fmap.
  - intros Hne. destruct us as [|n us']; [done|]. simpl. lia.
  - apply distinct_NoDup.
  - intros l. rewrite distinct_elem, list_elem_of_fmap. naive_solver.
  - done.
Qed.

End Assembly.

(** ** The depth-limited walk, continued *)

Section WalkFacts.
Import GraphBuilder GraphBuilderMore.
Variable g : CodeGraph.
Variable maxDepth : nat.

(** What one call of [traverse] adds to the accumulators. *)
Lemma traverse_adds fuel : ∀ nodeId depth w,
  let w' := traverse fuel g maxDepth nodeId depth w in
  visited w ⊆ visited w'
  ∧ (∃ added, edgesToInclude w' = edgesToInclude w ++ added
              ∧ (∀ e, e ∈ added → e ∈ edges g ∧ from e ∈ visited w')
              ∧ (∀ e, e ∈ edges g → from e ∈ visited w' → from e ∉ visited w → e ∈ added))
  ∧ (∀ x, x ∈ visited w' →
       x ∈ visited w ∨ ∃ k, k + depth ≤ maxDepth ∧ reach g k nodeId x).
Proof.
  induction fuel as [|fuel IH]; intros nodeId depth w; simpl.
  { split; [done|]. split; [|auto]. exists []. rewrite app_nil_r.
    split; [done|]. split; [by intros e ?%elem_of_nil|]. intros e _ H1 H2. done. }
  destruct ((maxDepth <? depth)%nat || bool_decide (nodeId ∈ visited w)) eqn:Htest.
  { split; [done|]. split; [|auto]. exists []. rewrite app_nil_r.
    split; [done|]. split; [by intros e ?%elem_of_nil|]. intros e _ H1 H2. done. }
  apply orb_false_iff in Htest as [Hd Hn].
  apply Nat.ltb_ge in Hd. apply bool_decide_eq_false in Hn.
  assert (Hfold : ∀ es w0,
    (∀ e, e ∈ es → e ∈ edges g ∧ from e = nodeId) → nodeId ∈ visited w0 →
    let w1 := fold_left (fun w' edge => traverse fuel g maxDepth (to edge) (S depth)
                                          (pushEdge edge w')) es w0 in
    visited w0 ⊆ visited w1
    ∧ (∃ added, edgesToInclude w1 = edgesToInclude w0 ++ added
                ∧ (∀ e, e ∈ added → e ∈ edges g ∧ from e ∈ visited w1)
                ∧ (∀ e, e ∈ es → e ∈ added)
                ∧ (∀ e, e ∈ edges g → from e ∈ visited w1 → from e ∉ visited w0 → e ∈ added))
    ∧ (∀ x, x ∈ visited w1 →
         x ∈ visited w0 ∨ ∃ k e, k + S depth ≤ maxDepth ∧ e ∈ es ∧ reach g k (to e) x)).
  { induction es as [|e es IHes]; intros w0 Hes Hin; simpl.
    { split; [done|]. split; [|auto]. exists []. rewrite app_nil_r.
      split; [done|]. split; [by intros e ?%elem_of_nil|].
      split; [by intros e ?%elem_of_nil|]. intros e _ H1 H2. done. }
    destruct (IH (to e) (S depth) (pushEdge e w0)) as (Hsub1 & (a1 & Ha1 & Hin1 & Hall1) & Hr1).
    set (w0' := traverse fuel g maxDepth (to e) (S depth) (pushEdge e w0)) in *.
    simpl in Hsub1, Ha1, Hall1, Hr1.
    destruct (IHes w0') as (Hsub2 & (a2 & Ha2 & Hin2 & Hes2 & Hall2) & Hr2).
    { intros e' He'. apply Hes. by right. }
    { by apply Hsub1. }
    set (w1 := fold_left _ es w0') in *.
    split; [set_solver|]. split.
    - exists (e :: a1 ++ a2). split.
      { rewrite Ha2, Ha1. by rewrite <- !app_assoc. }
      split; [|split].
      + intros e' [->|[He'|He']%elem_of_app]%elem_of_cons.
        * destruct (Hes e ltac:(left)) as [He Hfrom]. split; [done|].
          rewrite Hfrom. apply Hsub2, Hsub1, Hin.
        * destruct (Hin1 e' He') as [? ?]. split; [done|]. by apply Hsub2.
        * by apply Hin2.
      + intros e' [->|He']%elem_of_cons; [left|].
        right. apply elem_of_app. right. by apply Hes2.
      + intros e' He' Hv1 Hv0. right. apply elem_of_app.
        destruct (decide (from e' ∈ visited w0')) as [Hmid|Hmid].
        * left. by apply Hall1.
        * right. by apply Hall2.
    - intros x Hx. destruct (Hr2 x Hx) as [Hx'|(k & e' & Hk & He' & Hreach)].
      + destruct (Hr1 x Hx') as [Hx0|(k & Hk & Hreach)]; [by left|].
        right. exists k, e. split; [done|]. split; [left|done].
      + right. exists k, e'. split; [done|]. split; [by right|done]. }
  destruct (Hfold (outgoing g nodeId) (enter nodeId w))
    as (Hsub & (added & Hadd & Hin & Hes & Hall) & Hr).
  { intros e He. by apply list_elem_of_filter in He as [? ?]. }
  { simpl. set_solver. }
  simpl in Hsub, Hadd, Hall, Hr.
  split; [set_solver|]. split.
  - exists added. split; [done|]. split; [done|].
    intros e He Hv Hw. destruct (decide (from e = nodeId)) as [Heq|Hne].
    + apply Hes. by apply list_elem_of_filter.
    + apply Hall; [done|done|]. set_solver.
  - intros x Hx. destruct (Hr x Hx) as [Hx'|(k & e & Hk & He & Hreach)].
    + apply elem_of_union in Hx' as [Hx'|Hx']; [|by left].
      apply elem_of_singleton in Hx' as ->. right. exists 0.
      split; [lia|constructor].
    + right. exists (S k). split; [lia|].
      apply list_elem_of_filter in He as [Hfrom He]. rewrite <- Hfrom.
      by constructor.
Qed.

End WalkFacts.

Section SubgraphFacts.
Import GraphBuilder GraphBuilderMore.

(** X3.  The result of [filterByDepth] is cut out of the graph: its
    nodes are a sublist of the graph's nodes, each with a visited id; its
    edges are exactly the edges of the graph whose source was visited (so
    every outgoing edge of a returned node is returned, and a returned
    edge may point at a node that is not). *)
Theorem filterByDepth_subgraph (g : CodeGraph) (root : string) (maxDepth : nat) :
  let r := filterByDepth g root maxDepth in
  let w := walkFrom g root maxDepth in
  nodes r `sublist_of` nodes g
  ∧ (∀ n, n ∈ nodes r ↔ n ∈ nodes g ∧ id n ∈ visited w)
  ∧ (∀ e, e ∈ edges r ↔ e ∈ edges g ∧ from e ∈ visited w).
Proof.
  intros r w. subst r w. unfold filterByDepth. cbn [nodes edges].
  split; [apply sublist_filter|]. split.
  - intros n. rewrite list_elem_of_filter, <- walkFrom_same_sets. tauto.
  - destruct (traverse_adds g maxDepth (S maxDepth) root 0 emptyWalk)
      as (_ & (added & Hadd & Hin & Hall) & _).
    fold (walkFrom g root maxDepth) in Hadd, Hin, Hall.
    cbn [edgesToInclude emptyWalk app] in Hadd. rewrite Hadd.
    intros e. split; [apply Hin|].
    intros [He Hv]. apply Hall; [done|done|]. cbn. set_solver.
Qed.


End SubgraphFacts.

(** ** Dependency lookups, continued *)

Section DependencyFacts.
Import GraphBuilder.

Lemma findNode_unique g a :
  NoDup (id <$> nodes g) → a ∈ nodes g → findNode g (id a) = Some a.
Proof.
  intros Hnd Ha. apply list_elem_of_split in Ha as (l1 & l2 & Hsplit).
  apply (findNode_first g (id a) l1 a l2); [done|done|].
  intros n Hn Heq. rewrite Hsplit, fmap_app, fmap_cons in Hnd.
  apply NoDup_app in Hnd as (_ & Hdisj & _).
  apply (Hdisj (id n)); [by apply list_elem_of_fmap_2|]. rewrite Heq. left.
Qed.

Lemma getDependencies_elem g a b :
  findNode g (id a) = Some a →
  b ∈ getDependencies g (id a)
  ↔ b ∈ nodes g ∧ ∃ e, e ∈ edges g ∧ from e = filePath a ∧ to e = filePath b.
Proof.
  intros Hf. unfold getDependencies. rewrite Hf.
  rewrite list_elem_of_filter, list_elem_of_fmap. split.
  - intros [(e & Hto & He) Hb]. apply list_elem_of_filter in He as [Hfrom He].
    split; [done|]. by exists e.
  - intros [Hb (e & He & Hfrom & Hto)]. split; [|done].
    exists e. split; [done|]. by apply list_elem_of_filter.
Qed.

Lemma getDependents_elem g a b :
  findNode g (id a) = Some a →
  b ∈ getDependents g (id a)
  ↔ b ∈ nodes g ∧ ∃ e, e ∈ edges g ∧ to e = filePath a ∧ from e = filePath b.
Proof.
  intros Hf. unfold getDependents. rewrite Hf.
  rewrite list_elem_of_filter, list_elem_of_fmap. split.
  - intros [(e & Hfrom & He) Hb]. apply list_elem_of_filter in He as [Hto He].
    split; [done|]. by exists e.
  - intros [Hb (e & He & Hto & Hfrom)]. split; [|done].
    exists e. split; [done|]. by apply list_elem_of_filter.
Qed.



(** X6.  The two lookups mirror each other: in a graph with unique node
    ids, [b] is among the dependencies of [a] exactly when [a] is among
    the dependents of [b]. *)
Theorem getDependencies_getDependents (g : CodeGraph) (a b : CodeNode) :
  NoDup (id <$> nodes g) → a ∈ nodes g → b ∈ nodes g →
  b ∈ getDependencies g (id a) ↔ a ∈ getDependents g (id b).
Proof.
  intros Hnd Ha Hb.
  rewrite (getDependencies_elem g a b) by by apply findNode_unique.
  rewrite (getDependents_elem g b a) by by apply findNode_unique.
  naive_solver.
Qed.

Lemma getDependencies_getDependents_witness :
  Samples.node "b" ∈ getDependencies Samples.chain "a"
  ↔ Samples.node "a" ∈ getDependents Samples.chain "b".
Proof.
  apply (getDependencies_getDependents Samples.chain (Samples.node "a") (Samples.node "b")).
  - vm_compute. repeat constructor; set_solver.
  - right. left.
  - right. right. left.
Defined.

End DependencyFacts.

(** ** Entry-point detection, continued *)

Section DetectionFacts.
Import EntryPointDetector.

Lemma ByPriority_marked ps eps out :
  ByPriority ps eps out → ∃ p, FirstMarked p boost eps out.
Proof. intros (k & p & _ & _ & Hm). by exists p. Qed.

(** However the primary is chosen, one candidate is replaced by a flagged
    copy of itself. *)
Lemma markPrimaryEntryPoint_one eps :
  eps ≠ [] →
  ∃ l1 m l2 f, eps = l1 ++ m :: l2 ∧ markPrimaryEntryPoint eps = l1 ++ f m :: l2
               ∧ (f = boost ∨ f = markOnly).
Proof.
  intros Hne. pose proof (markPrimaryEntryPoint_code eps) as Hcode. simpl in Hcode.
  assert (Hfm : (∃ p, FirstMarked p boost eps (markPrimaryEntryPoint eps))
                ∨ markPrimaryEntryPoint eps
                  = match eps with [] => [] | ep :: rest => markOnly ep :: rest end).
  { destruct Hcode as [H|[[_ H]|[(_ & _ & H)|(_ & _ & _ & H)]]].
    - left. by eapply ByPriority_marked.
    - left. by eexists.
    - left. by eapply ByPriority_marked.
    - by right. }
  destruct Hfm as [[p Hfm]|Hfb].
  - inversion Hfm as [l1 m l2 _ _ Heps Hout]. exists l1, m, l2, boost. auto.
  - destruct eps as [|ep rest]; [done|]. exists [], ep, rest, markOnly. auto.
Qed.

Lemma markPrimaryEntryPoint_paths eps :
  filePath <$> markPrimaryEntryPoint eps = filePath <$> eps.
Proof.
  destruct (decide (eps = [])) as [->|Hne]; [done|].
  destruct (markPrimaryEntryPoint_one eps Hne) as (l1 & m & l2 & f & Hsplit & Hout & Hf).
  rewrite Hout, Hsplit, !fmap_app, !fmap_cons. by destruct Hf as [-> | ->].
Qed.

Lemma markPrimaryEntryPoint_flag eps :
  (∀ x, x ∈ eps → isPrimaryEntry x = false) → eps ≠ [] →
  ∃ l1 m l2, markPrimaryEntryPoint eps = l1 ++ m :: l2 ∧ isPrimaryEntry m = true
             ∧ ∀ x, x ∈ l1 ++ l2 → isPrimaryEntry x = false.
Proof.
  intros Hfresh Hne.
  destruct (markPrimaryEntryPoint_one eps Hne) as (l1 & m & l2 & f & Hsplit & Hout & Hf).
  exists l1, (f m), l2. split; [done|]. split; [by destruct Hf as [-> | ->]|].
  intros x Hx. apply Hfresh. rewrite Hsplit. set_solver.
Qed.

(** X7.  [markPrimaryEntryPoint] on a non-empty list of unflagged
    candidates flags exactly one of them.  It keeps the candidates in
    place: file paths and types are unchanged position by position, and a
    score either stays or grows by 100.  On the empty list it does
    nothing. *)
Theorem markPrimaryEntryPoint_exactly_one (eps : list EntryPoint) :
  (∀ x, x ∈ eps → isPrimaryEntry x = false) →
  let out := markPrimaryEntryPoint eps in
  filePath <$> out = filePath <$> eps
  ∧ type <$> out = type <$> eps
  ∧ Forall2 (fun a b => score b = score a ∨ score b = (score a + 100)%Z) eps out
  ∧ (eps = [] → out = [])
  ∧ (eps ≠ [] → ∃ l1 m l2, out = l1 ++ m :: l2 ∧ isPrimaryEntry m = true
                           ∧ ∀ x, x ∈ l1 ++ l2 → isPrimaryEntry x = false).
Proof.
  intros Hfresh out. subst out.
  destruct (decide (eps = [])) as [->|Hne].
  { repeat split; done. }
  destruct (markPrimaryEntryPoint_one eps Hne) as (l1 & m & l2 & f & Hsplit & Hout & Hf).
  rewrite Hout, Hsplit.
  assert (Hfp : filePath (f m) = filePath m) by (destruct Hf as [-> | ->]; done).
  assert (Hty : type (f m) = type m) by (destruct Hf as [-> | ->]; done).
  assert (Hpr : isPrimaryEntry (f m) = true) by (destruct Hf as [-> | ->]; done).
  split; [by rewrite !fmap_app, !fmap_cons, Hfp|].
  split; [by rewrite !fmap_app, !fmap_cons, Hty|].
  split; [|split].
  - apply Forall2_app; [by apply Forall_Forall2_diag, Forall_forall; auto|].
    constructor; [destruct Hf as [-> | ->]; simpl; auto|].
    apply Forall_Forall2_diag, Forall_forall; auto.
  - intros Hnil. by destruct l1.
  - intros _. rewrite <- Hout. by apply markPrimaryEntryPoint_flag.
Qed.

Lemma markPrimaryEntryPoint_exactly_one_witness :
  let eps := [candidate "/w/src/index.tsx" index 17; candidate "/w/server/Server.java" main 10] in
  (∀ x, x ∈ eps → isPrimaryEntry x = false)
  ∧ filePath <$> markPrimaryEntryPoint eps = filePath <$> eps
  ∧ ∃ l1 m l2, markPrimaryEntryPoint eps = l1 ++ m :: l2 ∧ isPrimaryEntry m = true
               ∧ ∀ x, x ∈ l1 ++ l2 → isPrimaryEntry x = false.
Proof.
  intros eps.
  assert (Hfresh : ∀ x, x ∈ eps → isPrimaryEntry x = false).
  { intros x Hx. subst eps.
    repeat (apply elem_of_cons in Hx as [->|Hx]; [done|]). by apply elem_of_nil in Hx. }
  split; [exact Hfresh|].
  destruct (markPrimaryEntryPoint_exactly_one eps Hfresh) as (Hp & _ & _ & _ & Hone).
  split; [exact Hp|]. by apply Hone.
Defined.

Lemma insertBy_perm cmp x l : insertBy cmp x l ≡ₚ x :: l.
Proof.
  induction l as [|y l IH]; simpl; [done|].
  destruct (cmp x y <=? 0)%Z; [done|]. rewrite IH. apply Permutation_swap.
Qed.

Lemma sortBy_perm cmp l : sortBy cmp l ≡ₚ l.
Proof.
  unfold sortBy. induction l as [|x l IH]; simpl; [done|].
  by rewrite insertBy_perm, IH.
Qed.

Lemma dedupFrom_keepFirst seen l :
  dedupFrom seen l = GraphBuilder.keepFirst filePath seen l.
Proof.
  revert seen. induction l as [|x l IH]; intros seen; simpl; [done|]. by rewrite !IH.
Qed.

Lemma collect_positive byName javaMain pythonMain x :
  x ∈ collect byName javaMain pythonMain → (0 < score x)%Z.
Proof.
  unfold collect. rewrite !elem_of_app. intros [Hx|[Hx|Hx]].
  - apply list_elem_of_In, in_flat_map in Hx as (f & _ & Hx).
    destruct (Z.ltb_spec 0 (calculateEntryPointScore f)); simpl in Hx; [|done].
    by destruct Hx as [<-|[]].
  - by apply list_elem_of_fmap in Hx as (f & -> & _).
  - by apply list_elem_of_fmap in Hx as (f & -> & _).
Qed.

Lemma first_with_path (x : EntryPoint) l :
  x ∈ l → ∃ y l1 l2, l = l1 ++ y :: l2 ∧ filePath y = filePath x
                     ∧ ∀ z, z ∈ l1 → filePath z ≠ filePath y.
Proof.
  induction l as [|h l IH]; [by intros ?%elem_of_nil|]. intros Hx.
  destruct (decide (filePath h = filePath x)) as [Heq|Hne].
  - exists h, [], l. split; [done|]. split; [done|]. by intros z ?%elem_of_nil.
  - apply elem_of_cons in Hx as [->|Hx]; [done|].
    destruct (IH Hx) as (y & l1 & l2 & -> & Hy & Hl1).
    exists y, (h :: l1), l2. split; [done|]. split; [done|].
    intros z [->|Hz]%elem_of_cons; [congruence|by apply Hl1].
Qed.

Lemma rankedCandidates_NoDup byName javaMain pythonMain :
  NoDup (filePath <$> rankedCandidates byName javaMain pythonMain).
Proof.
  unfold rankedCandidates, deduplicateEntryPoints.
  rewrite dedupFrom_keepFirst, (sortBy_perm byScore). apply keepFirst_spec.
Qed.

Lemma rankedCandidates_elem byName javaMain pythonMain x :
  x ∈ rankedCandidates byName javaMain pythonMain → x ∈ collect byName javaMain pythonMain.
Proof.
  unfold rankedCandidates, deduplicateEntryPoints. intros Hx.
  apply sortBy_elem in Hx. by eapply dedupFrom_elem.
Qed.

Lemma rankedCandidates_paths byName javaMain pythonMain p :
  p ∈ filePath <$> rankedCandidates byName javaMain pythonMain
  ↔ p ∈ filePath <$> collect byName javaMain pythonMain.
Proof.
  rewrite !list_elem_of_fmap. split.
  - intros (x & -> & Hx). exists x. split; [done|]. by eapply rankedCandidates_elem.
  - intros (x & -> & Hx).
    destruct (first_with_path x _ Hx) as (y & l1 & l2 & Hsplit & Hy & Hl1).
    exists y. split; [done|]. unfold rankedCandidates, deduplicateEntryPoints.
    apply sortBy_elem. rewrite dedupFrom_keepFirst. apply keepFirst_spec.
    split; [set_solver|]. by exists l1, l2.
Qed.

(** X8.  The list handed to [markPrimaryEntryPoint]: no two candidates
    share a file path, every candidate has a positive score and no flag,
    the list is sorted by descending score, and a file is listed exactly
    when one of the three scans produced a candidate for it. *)
Theorem rankedCandidates_invariants (byName javaMain pythonMain : list string) :
  let eps := rankedCandidates byName javaMain pythonMain in
  NoDup (filePath <$> eps)
  ∧ StronglySorted scoreGe eps
  ∧ (∀ x, x ∈ eps → (0 < score x)%Z ∧ isPrimaryEntry x = false)
  ∧ (∀ p, p ∈ filePath <$> eps ↔ p ∈ filePath <$> collect byName javaMain pythonMain).
Proof.
  intros eps. subst eps. split; [apply rankedCandidates_NoDup|].
  split; [apply sortBy_sorted|]. split; [|intros p; apply rankedCandidates_paths].
  intros x Hx. apply rankedCandidates_elem in Hx.
  split; [by eapply collect_positive|by eapply collect_fresh].
Qed.

Lemma sortBy_primary_head l :
  match sortBy primaryFirst l with
  | [] => l = []
  | h :: _ => isPrimaryEntry h = false → ∀ x, x ∈ l → isPrimaryEntry x = false
  end.
Proof.
  induction l as [|x l IH]; [done|]. unfold sortBy in *. simpl.
  destruct (foldr (insertBy primaryFirst) [] l) as [|y t] eqn:Hs; simpl.
  - subst l. intros Hx z Hz. apply list_elem_of_singleton in Hz. by subst.
  - destruct (Z.leb_spec (primaryFirst x y) 0) as [Hle|Hgt].
    + intros Hx z Hz. apply elem_of_cons in Hz as [->|Hz]; [done|].
      apply IH; [|done]. unfold primaryFirst in Hle. rewrite Hx in Hle. simpl in Hle.
      destruct (isPrimaryEntry y); [lia|done].
    + intros Hy z Hz. apply elem_of_cons in Hz as [->|Hz]; [|by apply IH].
      unfold primaryFirst in Hgt. rewrite Hy in Hgt. simpl in Hgt.
      destruct (isPrimaryEntry x); [simpl in Hgt; lia|done].
Qed.

(** X9.  What [detectEntryPoints] returns: at most ten candidates, no two
    for the same file, at most one of them flagged primary; when the scans
    found any candidate, the first entry of the result is the primary
    one; when they found none, the result is empty. *)
Theorem detectEntryPoints_result (byName javaMain pythonMain : list string) :
  let out := detectEntryPoints byName javaMain pythonMain in
  length out ≤ 10
  ∧ NoDup (filePath <$> out)
  ∧ (∀ x y, x ∈ out → y ∈ out → isPrimaryEntry x = true → isPrimaryEntry y = true → x = y)
  ∧ (collect byName javaMain pythonMain ≠ [] →
       ∃ h t, out = h :: t ∧ isPrimaryEntry h = true)
  ∧ (collect byName javaMain pythonMain = [] → out = []).
Proof.
  intros out. subst out. unfold detectEntryPoints.
  set (eps := rankedCandidates byName javaMain pythonMain).
  pose proof (rankedCandidates_NoDup byName javaMain pythonMain) as Hnd.
  pose proof (rankedCandidates_paths byName javaMain pythonMain) as Hpaths.
  fold eps in Hnd, Hpaths.
  assert (Hfresh : ∀ x, x ∈ eps → isPrimaryEntry x = false).
  { intros x Hx. apply rankedCandidates_elem in Hx. by eapply collect_fresh. }
  pose proof (markPrimaryEntryPoint_paths eps) as Hfp.
  assert (Hnil : eps = [] → markPrimaryEntryPoint eps = []) by (by intros ->).
  pose proof (markPrimaryEntryPoint_flag eps Hfresh) as Hone.
  set (marked := markPrimaryEntryPoint eps) in *.
  set (sorted := sortBy primaryFirst marked).
  assert (Hsub : ∀ x, x ∈ take 10 sorted → x ∈ marked).
  { intros x Hx. apply (sortBy_elem primaryFirst).
    eapply elem_of_sublist; [exact Hx|apply sublist_take]. }
  split; [rewrite length_take; lia|]. split; [|split; [|split]].
  - apply (sublist_NoDup _ (filePath <$> sorted)).
    + unfold sorted. rewrite (sortBy_perm primaryFirst), Hfp. done.
    + apply fmap_sublist, sublist_take.
  - intros x y Hx Hy Hpx Hpy. apply Hsub in Hx, Hy.
    destruct (decide (eps = [])) as [He|He].
    { rewrite (Hnil He) in Hx. by apply elem_of_nil in Hx. }
    destruct (Hone He) as (l1 & m & l2 & Hm & _ & Hrest). rewrite Hm in Hx, Hy.
    assert (Hxm : x = m).
    { apply elem_of_app in Hx as [Hx|[->|Hx]%elem_of_cons]; [|done|];
        rewrite (Hrest x) in Hpx; set_solver. }
    assert (Hym : y = m).
    { apply elem_of_app in Hy as [Hy|[->|Hy]%elem_of_cons]; [|done|];
        rewrite (Hrest y) in Hpy; set_solver. }
    congruence.
  - intros Hc.
    assert (He : eps ≠ []).
    { intros He. destruct (collect byName javaMain pythonMain) as [|c cs] eqn:Hcs; [done|].
      assert (Hp : filePath c ∈ filePath <$> eps) by (apply Hpaths; set_solver).
      rewrite He in Hp. by apply elem_of_nil in Hp. }
    destruct (Hone He) as (l1 & m & l2 & Hm & Hpm & _).
    pose proof (sortBy_primary_head marked) as Hhead. fold sorted in Hhead.
    destruct sorted as [|h t] eqn:Hsorted.
    { rewrite Hhead in Hm. by destruct l1. }
    exists h, (take 9 t). split; [done|].
    destruct (isPrimaryEntry h) eqn:Hh; [done|].
    rewrite (Hhead eq_refl m) in Hpm; [done|]. rewrite Hm. set_solver.
  - intros Hc.
    assert (He : eps = []).
    { destruct eps as [|e es] eqn:Heps; [done|].
      assert (Hp : filePath e ∈ filePath <$> collect byName javaMain pythonMain).
      { apply Hpaths. set_solver. }
      rewrite Hc in Hp. by apply elem_of_nil in Hp. }
    unfold sorted. by rewrite (Hnil He).
Qed.

End DetectionFacts.

(** ** The dependencies of a file *)

Section ResolveFacts.
Import Eff ImportAnalyzer ImportAnalyzerMore.
Context `{PathModule}.
Variable fs : gset string.

Lemma append_empty_r (s : string) : s +:+ EmptyString = s.
Proof. induction s as [|a s IH]; [done|]. by rewrite append_cons, IH. Qed.

Lemma tryExtensions_exists resolvedPath exts p :
  tryExtensions fs resolvedPath exts = Some p →
  p ∈ fs ∧ ∃ ext, ext ∈ exts ∧ p = resolvedPath +:+ ext.
Proof.
  induction exts as [|ext exts IH]; simpl; [done|].
  unfold fileExists. case_bool_decide as Hin.
  - intros [= <-]. split; [done|]. exists ext. split; [set_solver|done].
  - intros Hp. destruct (IH Hp) as (Hfs & ext' & Hext & ->).
    split; [done|]. exists ext'. split; [set_solver|done].
Qed.

Lemma resolveImportPath_exists sourceFile importSource workspaceRoot p :
  resolveImportPath fs sourceFile importSource workspaceRoot = Some p →
  p ∈ fs
  ∧ (Str.startsWith importSource "." = true ∨ Str.startsWith importSource "/" = true)
  ∧ ∃ ext, ext ∈ extensions ++ [EmptyString]
           ∧ p = resolve (dirname sourceFile) importSource +:+ ext.
Proof.
  unfold resolveImportPath.
  destruct (negb (Str.startsWith importSource ".")
            && negb (Str.startsWith importSource "/")) eqn:Hguard; [done|].
  assert (Hrel : Str.startsWith importSource "." = true
                 ∨ Str.startsWith importSource "/" = true).
  { destruct (Str.startsWith importSource "."); [by left|].
    destruct (Str.startsWith importSource "/"); [by right|done]. }
  destruct (tryExtensions fs (resolve (dirname sourceFile) importSource) extensions)
    as [q|] eqn:Htry.
  - intros [= <-]. apply tryExtensions_exists in Htry as (Hfs & ext & Hext & ->).
    split; [done|]. split; [done|]. exists ext. split; [set_solver|done].
  - unfold fileExists. case_bool_decide as Hin; [|done]. intros [= <-].
    split; [done|]. split; [done|]. exists EmptyString. split; [set_solver|].
    by rewrite append_empty_r.
Qed.

Lemma foldl_dependencyStep fsPath workspaceRoot found : ∀ acc,
  ∃ new, foldl (dependencyStep fs fsPath workspaceRoot) acc found = acc ++ new
  ∧ length new ≤ length found
  ∧ ∀ d, d ∈ new →
      sourceFile d = fsPath ∧ dtype d = DImport ∧ targetFile d ≠ EmptyString
      ∧ ∃ imp, imp ∈ found ∧ importedItems d = specifiers imp
               ∧ resolveImportPath fs fsPath (source imp) workspaceRoot = Some (targetFile d).
Proof.
  induction found as [|imp found IH]; intros acc; simpl.
  { exists []. rewrite app_nil_r. split; [done|]. split; [done|]. by intros d ?%elem_of_nil. }
  destruct (IH (dependencyStep fs fsPath workspaceRoot acc imp)) as (new & -> & Hlen & Hnew).
  assert (Hlift : ∀ d, d ∈ new →
      sourceFile d = fsPath ∧ dtype d = DImport ∧ targetFile d ≠ EmptyString
      ∧ ∃ i, i ∈ imp :: found ∧ importedItems d = specifiers i
             ∧ resolveImportPath fs fsPath (source i) workspaceRoot = Some (targetFile d)).
  { intros d Hd. destruct (Hnew d Hd) as (? & ? & ? & i & ? & ? & ?).
    repeat split; try done. exists i. split; [set_solver|done]. }
  unfold dependencyStep at 1.
  destruct (resolveImportPath fs fsPath (source imp) workspaceRoot) as [p|] eqn:Hres;
    [destruct (String.eqb_spec p EmptyString) as [Hp|Hp]|].
  - exists new. split; [done|]. split; [lia|done].
  - eexists (_ :: new). split; [by rewrite <- app_assoc|]. split; [simpl; lia|].
    intros d [->|Hd]%elem_of_cons; [|by apply Hlift]. simpl.
    repeat split; try done. exists imp. split; [set_solver|done].
  - exists new. split; [done|]. split; [lia|done].
Qed.

End ResolveFacts.

Section DependencyMapFacts.
Import Eff ImportAnalyzer ImportAnalyzerMore.
Context `{PathModule}.
Variable fs : gset string.
Variable extname : string → string.
Variable analyzeImports : string → M (list ImportInfo).
Variable analyzeJavaImports : string → M (list ImportInfo).


End DependencyMapFacts.

(** ** Which files the workspace analysis parses *)

Section CollectFacts.
Import WorkspaceAnalyzer.
Variable dependencyMap : gmap string (list string).
Variable maxDepth : nat.

Lemma foldl_agree {A B} (f g : A → B → A) l : ∀ a,
  (∀ a b, f a b = g a b) → foldl f a l = foldl g a l.
Proof.
  induction l as [|b l IH]; intros a Hfg; simpl; [done|]. by rewrite Hfg, IH.
Qed.

Lemma collectDependencyTree_fuel fuel1 : ∀ fuel2 filePath collected depth,
  maxDepth - depth ≤ fuel1 → maxDepth - depth ≤ fuel2 →
  collectDependencyTree fuel1 filePath dependencyMap collected depth maxDepth
  = collectDependencyTree fuel2 filePath dependencyMap collected depth maxDepth.
Proof.
  induction fuel1 as [|fuel1 IH]; intros fuel2 filePath collected depth H1 H2.
  - destruct fuel2; simpl; [done|].
    destruct (Nat.leb_spec maxDepth depth); [done|lia].
  - destruct fuel2 as [|fuel2]; simpl.
    + destruct (Nat.leb_spec maxDepth depth); [done|lia].
    + destruct (Nat.leb_spec maxDepth depth); [done|]. simpl.
      case_bool_decide; [done|]. apply foldl_agree. intros c dep. apply IH; lia.
Qed.

Lemma set_add_spec x (c : list string) :
  ∃ added, set_add x c = c ++ added ∧ (NoDup c → NoDup (c ++ added))
           ∧ x ∈ c ++ added ∧ ∀ y, y ∈ added → y = x.
Proof.
  unfold set_add. case_bool_decide as Hin.
  - exists []. rewrite app_nil_r. split; [done|]. split; [done|]. split; [done|].
    by intros y ?%elem_of_nil.
  - exists [x]. split; [done|]. split; [|split; [set_solver|]].
    + intros Hnd. apply NoDup_app. split; [done|]. split; [set_solver|]. apply NoDup_singleton.
    + by intros y ->%list_elem_of_singleton.
Qed.

(** A loop whose turns each append to the collection. *)
Lemma foldl_appends {B} (step : list string → B → list string)
    (Q : B → string → Prop) (R : B → list string → Prop) (l : list B) :
  (∀ c b, b ∈ l → ∃ added, step c b = c ++ added
                  ∧ (NoDup c → NoDup (c ++ added))
                  ∧ (∀ x, x ∈ added → Q b x)
                  ∧ R b (c ++ added)) →
  (∀ b c added, R b c → R b (c ++ added)) →
  ∀ c, ∃ added, foldl step c l = c ++ added
       ∧ (NoDup c → NoDup (c ++ added))
       ∧ (∀ x, x ∈ added → ∃ b, b ∈ l ∧ Q b x)
       ∧ (∀ b, b ∈ l → R b (c ++ added)).
Proof.
  intros Hstep Hmono. induction l as [|b l IH]; intros c; simpl.
  { exists []. rewrite app_nil_r. split; [done|]. split; [done|].
    split; [by intros x ?%elem_of_nil|by intros b ?%elem_of_nil]. }
  destruct (Hstep c b) as (a1 & -> & Hnd1 & HQ1 & HR1); [set_solver|].
  destruct (IH (fun c b Hb => Hstep c b ltac:(set_solver)) (c ++ a1))
    as (a2 & -> & Hnd2 & HQ2 & HR2).
  exists (a1 ++ a2). rewrite <- app_assoc. split; [done|].
  split; [by rewrite app_assoc; auto|]. split.
  - intros x [Hx|Hx]%elem_of_app.
    + exists b. split; [set_solver|auto].
    + destruct (HQ2 x Hx) as (b' & Hb' & HQ). exists b'. split; [set_solver|done].
  - intros b' [->|Hb']%elem_of_cons.
    + rewrite app_assoc. by apply Hmono.
    + rewrite app_assoc. by apply HR2.
Qed.

Lemma collectDependencyTree_spec fuel : ∀ filePath collected depth,
  maxDepth - depth ≤ fuel →
  ∃ added,
    collectDependencyTree fuel filePath dependencyMap collected depth maxDepth
    = collected ++ added
    ∧ (NoDup collected → NoDup (collected ++ added))
    ∧ (∀ x, x ∈ added → ∃ k, depth + k < maxDepth ∧ depReach dependencyMap k filePath x)
    ∧ (depth < maxDepth → filePath ∈ collected ++ added)
    ∧ (depth + 1 < maxDepth → filePath ∉ collected →
       ∀ dep, dep ∈ default [] (dependencyMap !! filePath) → dep ∈ collected ++ added).
Proof.
  induction fuel as [|fuel IH]; intros filePath collected depth Hfuel.
  - assert (Hle : maxDepth ≤ depth) by lia.
    exists []. rewrite app_nil_r. simpl.
    destruct (Nat.leb_spec maxDepth depth); [|lia]. simpl.
    split; [done|]. split; [done|]. split; [by intros x ?%elem_of_nil|].
    split; intros; lia.
  - simpl. destruct (Nat.leb_spec maxDepth depth) as [Hle|Hlt]; simpl.
    { exists []. rewrite app_nil_r. split; [done|]. split; [done|].
      split; [by intros x ?%elem_of_nil|]. split; intros; lia. }
    case_bool_decide as Hin.
    { exists []. rewrite app_nil_r. split; [done|]. split; [done|].
      split; [by intros x ?%elem_of_nil|]. split; [done|]. by intros _ ?. }
    destruct (set_add_spec filePath collected) as (a0 & Ha0 & Hnd0 & Hin0 & Hself).
    rewrite Ha0.
    destruct (foldl_appends
                (fun collected dep =>
                   collectDependencyTree fuel dep dependencyMap collected (depth + 1) maxDepth)
                (fun dep x => ∃ k, depth + 1 + k < maxDepth ∧ depReach dependencyMap k dep x)
                (fun dep c => depth + 1 < maxDepth → dep ∈ c)
                (default [] (dependencyMap !! filePath))) with (c := collected ++ a0)
      as (a1 & Ha1 & Hnd1 & Hreach1 & Hdeps1).
    { intros c dep _. destruct (IH dep c (depth + 1)) as (a & Ha & Hnd & Hr & Hself' & _); [lia|].
      exists a. split; [done|]. split; [done|]. split; [|done].
      intros x Hx. destruct (Hr x Hx) as (k & Hk & Hreach). exists k. split; [lia|done]. }
    { intros dep c a Hc Hd. apply elem_of_app. left. by apply Hc. }
    rewrite Ha1. exists (a0 ++ a1). rewrite app_assoc. split; [done|].
    split; [by auto|]. split; [|split].
    + intros x [Hx|Hx]%elem_of_app.
      * apply Hself in Hx as ->. exists 0. split; [lia|constructor].
      * destruct (Hreach1 x Hx) as (dep & Hdep & k & Hk & Hreach).
        destruct (dependencyMap !! filePath) as [ds|] eqn:Hds;
          [|by apply elem_of_nil in Hdep].
        exists (S k). split; [lia|]. by eapply depReach_step.
    + intros _. set_solver.
    + intros Hd _ dep Hdep. by apply Hdeps1.
Qed.

(** X11.  [collectDependencyTree] only appends to the collection and never
    lists a file twice.  What it appends is the file itself and files
    reached from it along the dependency map, each within the depth that
    is left.  The file is in the collection afterwards unless the depth
    limit is reached, and so are its direct dependencies when one more
    level is allowed.  At the depth limit nothing changes. *)
Theorem collectDependencyTree_collects (fuel : nat) (filePath : string)
    (collected : list string) (depth : nat) :
  maxDepth - depth ≤ fuel →
  let out := collectDependencyTree fuel filePath dependencyMap collected depth maxDepth in
  out = collectDependencyTree (maxDepth - depth) filePath dependencyMap collected depth maxDepth
  ∧ (∃ added, out = collected ++ added
       ∧ ∀ x, x ∈ added → ∃ k, depth + k < maxDepth ∧ depReach dependencyMap k filePath x)
  ∧ (NoDup collected → NoDup out)
  ∧ (depth < maxDepth → filePath ∈ out)
  ∧ (depth + 1 < maxDepth → filePath ∉ collected →
     ∀ dep, dep ∈ default [] (dependencyMap !! filePath) → dep ∈ out)
  ∧ (maxDepth ≤ depth → out = collected).
Proof.
  intros Hfuel out. subst out.
  destruct (collectDependencyTree_spec fuel filePath collected depth Hfuel)
    as (added & Hout & Hnd & Hreach & Hself & Hdeps).
  split; [by apply collectDependencyTree_fuel|]. rewrite Hout.
  split; [by exists added|]. split; [done|]. split; [done|]. split; [done|].
  intros Hle. destruct added as [|x added]; [by rewrite app_nil_r|].
  destruct (Hreach x) as (k & Hk & _); [set_solver|lia].
Qed.

End CollectFacts.

Lemma collectDependencyTree_collects_witness :
  let m : gmap string (list string) :=
    <["/w/a.ts" := ["/w/b.ts"; "/w/c.ts"]]> (<["/w/b.ts" := ["/w/c.ts"; "/w/a.ts"]]> ∅) in
  5 - 0 ≤ 5
  ∧ "/w/a.ts" ∈ WorkspaceAnalyzer.collectDependencyTree 5 "/w/a.ts" m [] 0 5
  ∧ NoDup (WorkspaceAnalyzer.collectDependencyTree 5 "/w/a.ts" m [] 0 5).
Proof.
  intros m. split; [lia|].
  destruct (collectDependencyTree_collects m 5 5 "/w/a.ts" [] 0 ltac:(lia))
    as (_ & _ & Hnd & Hself & _).
  split; [apply Hself; lia|apply Hnd; constructor].
Defined.

Section FilesToParseFacts.
Import WorkspaceAnalyzer.

Lemma foldl_set_add (l : list string) : ∀ c,
  (NoDup c → NoDup (foldl (fun collected f => set_add f collected) c l))
  ∧ ∀ x, x ∈ foldl (fun collected f => set_add f collected) c l ↔ x ∈ c ∨ x ∈ l.
Proof.
  induction l as [|f l IH]; intros c; simpl.
  { split; [done|]. intros x. set_solver. }
  destruct (IH (set_add f c)) as [Hnd Hiff].
  destruct (set_add_spec f c) as (a & Ha & Hnda & Hin & Hself).
  split; [intros Hc; apply Hnd; rewrite Ha; auto|].
  intros x. rewrite Hiff, Ha. split.
  - intros [[Hx|Hx]%elem_of_app|Hx]; [by left| |set_solver].
    apply Hself in Hx as ->. set_solver.
  - intros [Hx|[->|Hx]%elem_of_cons]; [set_solver|by left|by right].
Qed.

Lemma filesToParse_entries (entryPoints : list EntryPointDetector.EntryPoint)
    (dependencyMap : gmap string (list string)) :
  ∃ added,
    foldl (fun collected ep =>
             collectDependencyTree 5 (EntryPointDetector.filePath ep)
                                   dependencyMap collected 0 5)
          [] (take 3 entryPoints) = added
    ∧ NoDup added
    ∧ (∀ x, x ∈ added →
         ∃ ep, ep ∈ take 3 entryPoints
               ∧ ∃ k, k < 5 ∧ depReach dependencyMap k (EntryPointDetector.filePath ep) x)
    ∧ (∀ ep, ep ∈ take 3 entryPoints → EntryPointDetector.filePath ep ∈ added).
Proof.
  destruct (foldl_appends
              (fun collected ep =>
                 collectDependencyTree 5 (EntryPointDetector.filePath ep)
                                       dependencyMap collected 0 5)
              (fun ep x => ∃ k, k < 5
                                ∧ depReach dependencyMap k (EntryPointDetector.filePath ep) x)
              (fun ep c => EntryPointDetector.filePath ep ∈ c)
              (take 3 entryPoints)) with (c := @nil string)
    as (added & Hout & Hnd & Hreach & Hself).
  { intros c ep _.
    destruct (collectDependencyTree_spec dependencyMap 5 5
                (EntryPointDetector.filePath ep) c 0) as (a & Ha & Hnda & Hr & Hs & _); [lia|].
    exists a. split; [done|]. split; [done|]. split; [|apply Hs; lia].
    intros x Hx. destruct (Hr x Hx) as (k & Hk & Hreach). exists k. split; [lia|done]. }
  { intros ep c a Hc. set_solver. }
  exists added. simpl in *. split; [done|]. split; [apply Hnd; constructor|]. done.
Qed.

Lemma filesToParse_selected_aux (entryPoints : list EntryPointDetector.EntryPoint)
    (dependencyMap : gmap string (list string))
    (javaFiles reactFiles pythonFiles : list string) :
  entryPoints ≠ [] →
  ∀ x, x ∈ filesToParse entryPoints dependencyMap javaFiles reactFiles pythonFiles →
       ∃ ep k, ep ∈ take 3 entryPoints ∧ k < 5
               ∧ depReach dependencyMap k (EntryPointDetector.filePath ep) x.
Proof.
  intros Hne x. unfold filesToParse. destruct entryPoints as [|ep0 eps]; [done|].
  change (0 <? length (ep0 :: eps)) with true. cbv iota.
  destruct (filesToParse_entries (ep0 :: eps) dependencyMap) as (added & -> & _ & Hreach & _).
  intros Hx. destruct (Hreach x Hx) as (ep & Hep & k & Hk & Hr). by exists ep, k.
Qed.

(** X12.  The files Step 4 of [analyze] selects.  No file is selected
    twice.  With entry points, the files of the first three are selected,
    and every selected file is reached from one of these three along at
    most four entries of the dependency map; a fourth entry point is
    parsed only if it is reached that way.  Without entry points every
    file that was found is selected and nothing else. *)
Theorem filesToParse_selected (entryPoints : list EntryPointDetector.EntryPoint)
    (dependencyMap : gmap string (list string))
    (javaFiles reactFiles pythonFiles : list string) :
  let out := filesToParse entryPoints dependencyMap javaFiles reactFiles pythonFiles in
  NoDup out
  ∧ (entryPoints ≠ [] →
       (∀ ep, ep ∈ take 3 entryPoints → EntryPointDetector.filePath ep ∈ out)
       ∧ (∀ x, x ∈ out →
            ∃ ep k, ep ∈ take 3 entryPoints ∧ k < 5
                    ∧ depReach dependencyMap k (EntryPointDetector.filePath ep) x))
  ∧ (entryPoints = [] → ∀ x, x ∈ out ↔ x ∈ javaFiles ++ reactFiles ++ pythonFiles).
Proof.
  intros out. subst out. unfold filesToParse.
  destruct entryPoints as [|ep0 eps].
  { simpl. destruct (foldl_set_add (javaFiles ++ reactFiles ++ pythonFiles) []) as [Hnd Hiff].
    split; [apply Hnd; constructor|]. split; [done|]. intros _ x. rewrite Hiff. set_solver. }
  change (0 <? length (ep0 :: eps)) with true. cbv iota.
  destruct (filesToParse_entries (ep0 :: eps) dependencyMap)
    as (added & -> & Hnd & Hreach & Hself).
  split; [done|]. split; [|done]. intros _. split; [done|].
  intros x Hx. destruct (Hreach x Hx) as (ep & Hep & k & Hk & Hr). by exists ep, k.
Qed.

End FilesToParseFacts.

Section DependencyMapsFacts.
Import Eff ImportAnalyzer ImportAnalyzerMore WorkspaceAnalyzer.
Context `{PathModule}.
Variable fs : gset string.
Variable extname : string → string.
Variable analyzeImports : string → M (list ImportInfo).
Variable analyzeJavaImports : string → M (list ImportInfo).
Variable workspaceRoot : string.

Lemma dependencyMapStep_returns files acc file allEdges added c :
  acc.2 = allEdges ++ added → targets_exist fs files acc added → file ∈ files →
  ∃ c' acc' new,
    dependencyMapStep fs extname analyzeImports analyzeJavaImports workspaceRoot acc file c
    = (c', inr acc')
    ∧ acc'.2 = allEdges ++ added ++ new
    ∧ targets_exist fs files acc' (added ++ new).
Proof.
  intros Hacc [Hmap Hedges] Hfile. unfold dependencyMapStep, tryCatch, mbind, M_bind.
  unfold buildDependencyMap, mbind, M_bind.
  destruct ((if String.eqb (extname file) ".java" then analyzeJavaImports file
             else analyzeImports file) c) as [c' [e|found]].
  - exists c', acc, []. rewrite !app_nil_r. done.
  - simpl. destruct (foldl_dependencyStep fs file workspaceRoot found [])
      as (deps & Hdeps & _ & Hd). simpl in Hdeps. rewrite Hdeps.
    assert (Hex : ∀ d, d ∈ deps → targetFile d ∈ fs).
    { intros d Hin. destruct (Hd d Hin) as (_ & _ & _ & imp & _ & _ & Hres).
      by apply (resolveImportPath_exists fs) in Hres as (Hfs & _). }
    exists c', (<[file := targetFile <$> deps]> acc.1, acc.2 ++ (importEdge file <$> deps)),
      (importEdge file <$> deps).
    split; [done|]. split; [simpl; by rewrite Hacc, <- app_assoc|]. split; simpl.
    + intros f ts. destruct (decide (f = file)) as [->|Hne].
      * rewrite lookup_insert_eq. intros [= <-]. split; [done|].
        intros t (d & -> & Hin)%list_elem_of_fmap. split; [auto|].
        exists (importEdge file d). split; [|done].
        apply elem_of_app. right. apply list_elem_of_fmap. by exists d.
      * rewrite lookup_insert_ne by done. intros Hf.
        destruct (Hmap f ts Hf) as [Hin Hts]. split; [done|].
        intros t Ht. destruct (Hts t Ht) as (Hfs & e & He & Hfrom & Hto).
        split; [done|]. exists e. split; [set_solver|done].
    + intros e [He|(d & -> & Hin)%list_elem_of_fmap]%elem_of_app; [by apply Hedges|].
      simpl. auto.
Qed.

Lemma forEach_dependencyMapStep files (l : list string) : ∀ acc allEdges added c,
  acc.2 = allEdges ++ added → targets_exist fs files acc added → (∀ f, f ∈ l → f ∈ files) →
  ∃ c' acc' new,
    forEach (dependencyMapStep fs extname analyzeImports analyzeJavaImports workspaceRoot)
            l acc c = (c', inr acc')
    ∧ acc'.2 = allEdges ++ added ++ new
    ∧ targets_exist fs files acc' (added ++ new).
Proof.
  induction l as [|file l IH]; intros acc allEdges added c Hacc Hinv Hl; simpl.
  { exists c, acc, []. rewrite !app_nil_r. done. }
  destruct (dependencyMapStep_returns files acc file allEdges added c)
    as (c1 & acc1 & new1 & Hstep & Hacc1 & Hinv1); [done|done|set_solver|].
  unfold mbind, M_bind. rewrite Hstep.
  destruct (IH acc1 allEdges (added ++ new1) c1) as (c2 & acc2 & new2 & Hrest & Hacc2 & Hinv2);
    [by rewrite Hacc1|done|set_solver|].
  exists c2, acc2, (new1 ++ new2). rewrite Hrest. split; [done|].
  rewrite !app_assoc in *. done.
Qed.

Lemma depReach_exists (dependencyMap : gmap string (list string)) k a b :
  (∀ f ts, dependencyMap !! f = Some ts → ∀ t, t ∈ ts → t ∈ fs) →
  depReach dependencyMap k a b → a = b ∨ b ∈ fs.
Proof.
  intros Hmap. induction 1 as [a|k a ds dep b Hds Hdep Hreach IH]; [by left|].
  right. destruct IH as [<-|Hb]; [by eapply Hmap|done].
Qed.

(** X13.  Step 3 of [analyze] always completes: a file whose imports
    cannot be read is skipped.  The map it builds has entries only for
    the files it was given, every recorded dependency is a file that
    exists and has an imports edge from the importing file, and the edges
    it appends are imports edges from a given file to an existing file.
    So, when entry points were found, every file Step 4 selects for
    parsing is the file of one of the first three entry points or a file
    that exists. *)
Theorem buildDependencyMaps_sound (files : list string) (allEdges : list CodeEdge)
    (c : Console) :
  ∃ c' dependencyMap added,
    buildDependencyMaps fs extname analyzeImports analyzeJavaImports workspaceRoot
                        files allEdges c
    = (c', inr (dependencyMap, allEdges ++ added))
    ∧ (∀ f ts, dependencyMap !! f = Some ts →
         f ∈ files ∧ ∀ t, t ∈ ts → t ∈ fs ∧ ∃ e, e ∈ added ∧ from e = f ∧ to e = t)
    ∧ (∀ e, e ∈ added → type e = imports ∧ from e ∈ files ∧ to e ∈ fs)
    ∧ ∀ entryPoints javaFiles reactFiles pythonFiles x,
        entryPoints ≠ [] →
        x ∈ filesToParse entryPoints dependencyMap javaFiles reactFiles pythonFiles →
        x ∈ EntryPointDetector.filePath <$> take 3 entryPoints ∨ x ∈ fs.
Proof.
  unfold buildDependencyMaps.
  destruct (forEach_dependencyMapStep files files (∅, allEdges) allEdges [] c)
    as (c' & [m es] & new & Hrun & Hes & Hmap & Hedges).
  { simpl. by rewrite app_nil_r. }
  { split; [|by intros e ?%elem_of_nil]. intros f ts Hf. simpl in Hf.
    by rewrite lookup_empty in Hf. }
  { done. }
  simpl in *. subst es. exists c', m, new. split; [done|]. split; [done|]. split; [done|].
  intros entryPoints javaFiles reactFiles pythonFiles x Hne Hx.
  destruct (filesToParse_selected_aux entryPoints m javaFiles reactFiles pythonFiles Hne x Hx)
    as (ep & k & Hep & _ & Hreach).
  apply depReach_exists in Hreach as [<-|Hfs]; [|by right|].
  - left. apply list_elem_of_fmap. by exists ep.
  - intros f ts Hf t Ht. by apply (Hmap f ts Hf).
Qed.

End DependencyMapsFacts.

Section EntryNodeFacts.
Import WorkspaceAnalyzer.

Lemma setEntryPoint_twice n : setEntryPoint (setEntryPoint n) = setEntryPoint n.
Proof. done. Qed.

(** One turn of the marking loop, position by position. *)
Lemma markEntryNode_lookup ns ep i n :
  ns !! i = Some n →
  markEntryNode ns ep !! i
  = Some (if bool_decide (Types.filePath n = EntryPointDetector.filePath ep
                          ∧ Types.filePath n ∉ Types.filePath <$> take i ns)
          then setEntryPoint n else n).
Proof.
  intros Hi. unfold markEntryNode.
  destruct (list_find _ ns) as [[k m]|] eqn:Hfind.
  - apply list_find_Some in Hfind as (Hk & Hm & Hbefore).
    destruct (decide (i = k)) as [->|Hne].
    + rewrite list_lookup_insert_eq by (by eapply lookup_lt_Some).
      assert (m = n) as -> by congruence.
      rewrite bool_decide_eq_true_2; [done|]. split; [done|].
      intros (y & Hy & Hin)%list_elem_of_fmap.
      apply elem_of_take in Hin as (j & Hj & Hlt). eapply Hbefore; [done|done|congruence].
    + rewrite list_lookup_insert_ne by done. rewrite Hi.
      rewrite bool_decide_eq_false_2; [done|]. intros [Hp Hfresh].
      destruct (decide (i < k)) as [Hlt|Hge]; [by eapply (Hbefore i n)|].
      apply Hfresh. apply list_elem_of_fmap. exists m. split; [congruence|].
      apply elem_of_take. exists k. split; [done|lia].
  - apply list_find_None in Hfind. rewrite Hi.
    rewrite bool_decide_eq_false_2; [done|]. intros [Hp _].
    eapply Forall_forall in Hfind; [|by eapply list_elem_of_lookup_2]. done.
Qed.

Lemma markEntryNode_paths ns ep :
  Types.filePath <$> markEntryNode ns ep = Types.filePath <$> ns.
Proof.
  unfold markEntryNode. destruct (list_find _ ns) as [[k m]|] eqn:Hfind; [|done].
  apply list_find_Some in Hfind as (Hk & _ & _).
  rewrite list_fmap_insert. apply list_insert_id. by rewrite list_lookup_fmap, Hk.
Qed.


End EntryNodeFacts.

(** ** The nodes of a parse result *)

Section ParsedNodesFacts.
Import Eff Parser ParsedNodes.

Lemma java_forEach_classStep_nodes `{JavaParser.Scanner} fsPath lines classes :
  ∀ acc c c' r,
    forEach (JavaParser.classStep fsPath lines) classes acc c = (c', inr r) →
    ∃ new, nodes r = nodes acc ++ new ∧ Forall (declared_in fsPath Java) new.
Proof.
  induction classes as [|cls classes IH]; intros acc c c' r; simpl.
  - intros [-> ->]%ret_returns. exists []. by rewrite app_nil_r.
  - intros (r1 & c1 & Hstep & Hrest)%bind_returns.
    apply (classStep_returns fsPath lines) in Hstep as (ms & _ & -> & Hn1 & _).
    apply IH in Hrest as (new & Hn & Hall). rewrite Hn, Hn1, <- app_assoc.
    eexists. split; [done|].
    apply Forall_app. split; [|done]. constructor.
    + repeat split; try done. by exists ("class:" +:+ JavaParser.name cls).
    + apply Forall_fmap, Forall_forall. intros m _. repeat split; try done.
      by exists ("method:" +:+ JavaParser.className m +:+ "." +:+ JavaParser.mname m
                 +:+ ":" +:+ pretty (JavaParser.mstartLine m)).
Qed.

Lemma java_forEach_interfaceStep_nodes fsPath interfaces :
  ∀ acc c c' r,
    forEach (JavaParser.interfaceStep fsPath) interfaces acc c = (c', inr r) →
    ∃ new, nodes r = nodes acc ++ new ∧ Forall (declared_in fsPath Java) new.
Proof.
  induction interfaces as [|i interfaces IH]; intros acc c c' r; simpl.
  - intros [-> ->]%ret_returns. exists []. by rewrite app_nil_r.
  - intros (r1 & c1 & Hstep & Hrest)%bind_returns.
    unfold JavaParser.interfaceStep in Hstep. apply ret_returns in Hstep as [-> ->].
    apply IH in Hrest as (new & Hn & Hall). rewrite Hn. simpl. rewrite <- app_assoc.
    eexists. split; [done|]. constructor; [|done].
    repeat split; try done. by exists ("interface:" +:+ JavaParser.iname i).
Qed.

(** The fallback of the three parsers: [if (nodes.length === 0 && flag)]. *)
Lemma fallback_body_nodes fsPath lang (flag : bool) content name ns :
  Forall (declared_in fsPath lang) ns →
  body_nodes fsPath lang flag
    (if bool_decide (length ns = 0) && flag
     then ns ++ [createModuleNode lang fsPath content name] else ns).
Proof.
  intros Hall. destruct ns as [|n ns]; simpl.
  - destruct flag; simpl.
    + right. left. split; [done|]. by exists content, name.
    + right. right. done.
  - left. done.
Qed.

Lemma java_body_nodes `{JavaParser.Scanner} fsPath content isEntryPoint c c' r :
  JavaParser.parseBody fsPath content isEntryPoint c = (c', inr r) →
  body_nodes fsPath Java isEntryPoint (nodes r).
Proof.
  unfold JavaParser.parseBody.
  intros (classes & c1 & Hcls & Hrest)%bind_returns.
  apply bind_returns in Hrest as (r1 & c2 & Hloop1 & Hrest).
  apply java_forEach_classStep_nodes in Hloop1 as (new1 & Hn1 & Hall1).
  apply bind_returns in Hrest as (ifaces & c3 & Hif & Hrest).
  apply bind_returns in Hrest as (r2 & c4 & Hloop2 & Hrest).
  apply java_forEach_interfaceStep_nodes in Hloop2 as (new2 & Hn2 & Hall2).
  apply bind_returns in Hrest as (found & c5 & Himp & Hret).
  apply ret_returns in Hret as [-> ->]. cbn [nodes].
  apply fallback_body_nodes. rewrite Hn2, Hn1. simpl.
  apply Forall_app. done.
Qed.

Lemma python_body_nodes `{PythonParser.Scanner} fsPath content isEntryPoint c c' r :
  PythonParser.parseBody fsPath content isEntryPoint c = (c', inr r) →
  body_nodes fsPath Python isEntryPoint (nodes r).
Proof.
  unfold PythonParser.parseBody.
  intros (classes & c1 & Hcls & Hrest)%bind_returns.
  apply bind_returns in Hrest as (funcs & c2 & Hf & Hrest).
  apply bind_returns in Hrest as (found & c3 & Himp & Hret).
  apply ret_returns in Hret as [-> ->]. cbn [nodes].
  apply fallback_body_nodes. apply Forall_app. split.
  - apply Forall_forall. intros n Hn.
    apply list_elem_of_In, in_flat_map in Hn as (cls & _ & Hn).
    apply list_elem_of_In in Hn. simpl in Hn.
    apply elem_of_cons in Hn as [->|Hn].
    + repeat split; try done. by exists ("class:" +:+ PythonParser.name cls).
    + apply list_elem_of_fmap in Hn as (m & -> & _). repeat split; try done.
      by exists ("method:" +:+ PythonParser.name cls +:+ "." +:+ PythonParser.mname m
                 +:+ ":" +:+ pretty (PythonParser.mstartLine m)).
  - apply Forall_fmap, Forall_forall. intros f _. repeat split; try done.
    by exists ("function:" +:+ PythonParser.fname f +:+ ":"
               +:+ pretty (PythonParser.fstartLine f)).
Qed.

Lemma react_visit_nodes fsPath node :
  Forall (declared_in fsPath (ReactParser.languageOf fsPath)) (ReactParser.visit fsPath node).
Proof.
  destruct node as [| name params body loc | | name init loc | | |
                    name superClass members loc | | | | | | | | ]; simpl; try done.
  - destruct (ReactParser.isReactComponent _); constructor; try done.
    + repeat split; try done. by exists ("component:" +:+ ReactParser.nameOr name).
    + repeat split; try done.
      by exists ("function:" +:+ ReactParser.nameOr name +:+ ":"
                 +:+ match loc with Some (l, _) => pretty l | None => "undefined" end).
  - destruct init as [init|]; [|done].
    destruct init; try done; destruct (ReactParser.isReactComponent _); try done;
      constructor; try done; repeat split; try done;
      by exists ("component:" +:+ ReactParser.nameOr name).
  - destruct (ReactParser.isReactClassComponent _); [|done]. constructor; [|done].
    repeat split; try done. by exists ("class:" +:+ ReactParser.nameOr name).
Qed.

Lemma react_traverse_nodes fsPath :
  ∀ node, Forall (declared_in fsPath (ReactParser.languageOf fsPath))
                 (ReactParser.traverse fsPath node).
Proof.
  fix IH 1. intros node.
  assert (Hopt : ∀ o : option ReactParser.Ast,
            (∀ a, o = Some a → Forall (declared_in fsPath (ReactParser.languageOf fsPath))
                                  (ReactParser.traverse fsPath a)) →
            Forall (declared_in fsPath (ReactParser.languageOf fsPath))
                   (match o with Some a => ReactParser.traverse fsPath a | None => [] end)).
  { intros [a|] Ha; [by apply Ha|done]. }
  destruct node as [body | name params body loc | ds | name init loc | params body |
                    name params body | name superClass members loc | body | argument |
                    children | name | object property | keys | source | children];
    cbn [ReactParser.traverse]; apply Forall_app; (split; [apply react_visit_nodes|]).
  - induction body as [|x l IHl]; simpl; [done|]. apply Forall_app. split; [apply IH|done].
  - apply Forall_app. split; [|apply IH].
    induction params as [|x l IHl]; simpl; [done|]. apply Forall_app. split; [apply IH|done].
  - induction ds as [|x l IHl]; simpl; [done|]. apply Forall_app. split; [apply IH|done].
  - destruct init as [i|]; [apply IH|done].
  - apply Forall_app. split; [|apply IH].
    induction params as [|x l IHl]; simpl; [done|]. apply Forall_app. split; [apply IH|done].
  - apply Forall_app. split; [|apply IH].
    induction params as [|x l IHl]; simpl; [done|]. apply Forall_app. split; [apply IH|done].
  - apply Forall_app. split; [destruct superClass as [s|]; [apply IH|done]|].
    induction members as [|x l IHl]; simpl; [done|]. apply Forall_app. split; [apply IH|done].
  - induction body as [|x l IHl]; simpl; [done|]. apply Forall_app. split; [apply IH|done].
  - destruct argument as [a|]; [apply IH|done].
  - induction children as [|x l IHl]; simpl; [done|]. apply Forall_app. split; [apply IH|done].
  - done.
  - apply Forall_app. split; apply IH.
  - done.
  - done.
  - induction children as [|x l IHl]; simpl; [done|]. apply Forall_app. split; [apply IH|done].
Qed.

Lemma react_body_nodes `{ReactParser.Babel} fsPath content isEntryPoint c c' r :
  ReactParser.parseBody fsPath content isEntryPoint c = (c', inr r) →
  body_nodes fsPath (ReactParser.languageOf fsPath)
             (isBootstrapFile content || isEntryPoint) (nodes r).
Proof.
  unfold ReactParser.parseBody.
  intros (ast & c1 & Hast & Hret)%bind_returns.
  apply ret_returns in Hret as [-> ->]. cbn [nodes].
  apply fallback_body_nodes, react_traverse_nodes.
Qed.

Lemma body_nodes_file fsPath lang fallback ns n :
  body_nodes fsPath lang fallback ns → n ∈ ns →
  filePath n = fsPath ∧ language n = lang ∧ ∃ rest, id n = fsPath +:+ ":" +:+ rest.
Proof.
  intros [[_ Hall]|[(_ & content & name & ->)|[_ ->]]] Hn.
  - eapply Forall_forall in Hall as (? & ? & _ & _ & ?); [|done]. done.
  - apply list_elem_of_singleton in Hn as ->. repeat split.
    by exists ("module:" +:+ name).
  - by apply elem_of_nil in Hn.
Qed.

Lemma body_nodes_flag fsPath lang fallback ns :
  body_nodes fsPath lang fallback ns →
  (∀ n, n ∈ ns → isEntryPoint n = true → ns = [n] ∧ kind n = KModule ∧ fallback = true)
  ∧ (∀ n, n ∈ ns → kind n = KModule → ns = [n] ∧ isEntryPoint n = true)
  ∧ (fallback = true → ns ≠ []).
Proof.
  intros [[Hne Hall]|[(Hfb & content & name & ->)|[Hfb ->]]].
  - split; [|split; [|done]].
    + intros n Hn Hflag. eapply Forall_forall in Hall as (_ & _ & Hf & _); [|done]. congruence.
    + intros n Hn Hk. eapply Forall_forall in Hall as (_ & _ & _ & Hm & _); [|done]. done.
  - split; [|split; [|done]].
    + intros n ->%list_elem_of_singleton _. done.
    + intros n ->%list_elem_of_singleton _. done.
  - split; [|split]; [by intros n ?%elem_of_nil ..|congruence].
Qed.

(** What one [parse] gives on a document that could be opened: a result,
    which is empty when the body threw, and built by the body otherwise. *)
Lemma parse_of_body {A} (body : M A) (handler : Error → M A) fallback c :
  (∀ c e, ∃ c', handler e c = (c', inr fallback)) →
  ∃ c' r, tryCatch body handler c = (c', inr r)
          ∧ ((∃ c1 e, body c = (c1, inl e) ∧ r = fallback) ∨ body c = (c', inr r)).
Proof.
  intros Hh. unfold tryCatch.
  destruct (body c) as [c1 [e|a]] eqn:Hbody.
  - destruct (Hh c1 e) as (c' & Hc'). exists c', fallback. split; [done|]. left. eauto.
  - exists c1, a. split; [done|]. by right.
Qed.



End ParsedNodesFacts.

(** ** Keys in an assembled graph *)

Section AssemblyKeys.
Import GraphBuilder.

Lemma keepFirst_sublist {A} (key : A → string) (l : list A) : ∀ seen,
  keepFirst key seen l `sublist_of` l.
Proof.
  induction l as [|x l IH]; intros seen; simpl; [done|].
  case_bool_decide; [by apply sublist_cons|by apply sublist_skip].
Qed.

Lemma keepFirst_covers {A} (key : A → string) (l : list A) x :
  x ∈ l → ∃ y, y ∈ keepFirst key ∅ l ∧ key y = key x.
Proof.
  intros Hx.
  assert (Hfirst : ∃ y l1 l2, l = l1 ++ y :: l2 ∧ key y = key x
                              ∧ ∀ z, z ∈ l1 → key z ≠ key y).
  { clear -Hx. induction l as [|h l IH]; [by apply elem_of_nil in Hx|].
    destruct (decide (key h = key x)) as [Heq|Hne].
    - exists h, [], l. split; [done|]. split; [done|]. by intros z ?%elem_of_nil.
    - apply elem_of_cons in Hx as [->|Hx]; [done|].
      destruct (IH Hx) as (y & l1 & l2 & -> & Hy & Hl1).
      exists y, (h :: l1), l2. split; [done|]. split; [done|].
      intros z [->|Hz]%elem_of_cons; [congruence|by apply Hl1]. }
  destruct Hfirst as (y & l1 & l2 & Hsplit & Hy & Hl1).
  exists y. split; [|done]. apply keepFirst_spec. split; [set_solver|]. by exists l1, l2.
Qed.

(** X15.  In an assembled graph no two nodes share an id and no two edges
    share a key string.  Nodes and edges keep the order of the input, the
    first node of each id and the first edge of each key string are the
    ones kept, and every id and key string of the input is still
    represented. *)
Theorem buildFromEntryPoints_first_wins (ns : list CodeNode) (es : list CodeEdge)
    (root : string) (entryPointFiles : list string) (now : Z) :
  let g := buildFromEntryPoints ns es root entryPointFiles now in
  NoDup (id <$> nodes g)
  ∧ nodes g `sublist_of` ns
  ∧ (∀ n, n ∈ nodes g ↔ ∃ l1 l2, ns = l1 ++ n :: l2 ∧ ∀ m, m ∈ l1 → id m ≠ id n)
  ∧ (∀ n, n ∈ ns → ∃ m, m ∈ nodes g ∧ id m = id n)
  ∧ NoDup (edgeKey <$> edges g)
  ∧ edges g `sublist_of` es
  ∧ (∀ e, e ∈ edges g ↔ ∃ l1 l2, es = l1 ++ e :: l2 ∧ ∀ e', e' ∈ l1 → edgeKey e' ≠ edgeKey e)
  ∧ (∀ e, e ∈ es → ∃ e', e' ∈ edges g ∧ edgeKey e' = edgeKey e).
Proof.
  intros g. subst g. cbn [nodes edges buildFromEntryPoints].
  rewrite deduplicateNodes_keepFirst, deduplicateEdges_keepFirst.
  destruct (keepFirst_spec id ns ∅) as [Hn1 Hn2].
  destruct (keepFirst_spec edgeKey es ∅) as [He1 He2].
  split; [done|]. split; [apply keepFirst_sublist|].
  split; [intros n; rewrite Hn2; set_solver|].
  split; [intros n; apply keepFirst_covers|].
  split; [done|]. split; [apply keepFirst_sublist|].
  split; [intros e; rewrite He2; set_solver|].
  intros e. apply keepFirst_covers.
Qed.

End AssemblyKeys.
